(** * Region merging and crop extraction of [extracting_highlights_images.py]

    A shallow embedding of the annotation-region engine: the proximity
    predicate between rectangles, the fixed-point grouping loop of
    [merge_nearby_rectangles], the padding and clamping of crops, and the
    records emitted for a page.  Python integers are unbounded, so pixel
    coordinates are modelled in [Z]; Python lists are lists; the [used]
    flag array is a [list bool] read and written by index. *)

From stdpp Require Import base numbers list strings pretty gmap.
From Stdlib Require Import ZArith Lia.
From Stdlib Require Import Floats.PrimFloat.

Local Open Scope Z_scope.

(** ** Rectangles *)

(** A Python 4-tuple of integers.  [merge_nearby_rectangles] receives
    tuples read as [(x, y, w, h)] and converts them to corner form
    [(x1, y1, x2, y2)]; both shapes are the same tuple type. *)
Definition rect : Type := Z * Z * Z * Z.

(** [(x, y, x + w, y + h) for x, y, w, h in rectangles] *)
Definition to_corners (r : rect) : rect :=
  let '(x, y, w, h) := r in (x, y, x + w, y + h).

(** [rectangles_should_merge(rect1, rect2, horizontal_threshold,
    vertical_threshold)], on corner-form tuples. *)
Definition rectangles_should_merge (rect1 rect2 : rect)
    (horizontal_threshold vertical_threshold : Z) : bool :=
  let '(x1_1, y1_1, x2_1, y2_1) := rect1 in
  let '(x1_2, y1_2, x2_2, y2_2) := rect2 in
  let h_overlap :=
    negb ((x2_1 <? x1_2 - horizontal_threshold)
          || (x2_2 <? x1_1 - horizontal_threshold)) in
  let v_overlap :=
    negb ((y2_1 <? y1_2 - vertical_threshold)
          || (y2_2 <? y1_1 - vertical_threshold)) in
  h_overlap && v_overlap.

(** [rectangles_overlap(rect1, rect2)], on [(x, y, w, h)] tuples. *)
Definition rectangles_overlap (rect1 rect2 : rect) : bool :=
  let '(x1, y1, w1, h1) := rect1 in
  let '(x2, y2, w2, h2) := rect2 in
  negb ((x1 + w1 <? x2) || (x2 + w2 <? x1)
        || (y1 + h1 <? y2) || (y2 + h2 <? y1)).

(** Two corner-form rectangles share at least one point. *)
Definition corners_intersect (a b : rect) : Prop :=
  let '(ax0, ay0, ax1, ay1) := a in
  let '(bx0, by0, bx1, by1) := b in
  bx0 <= ax1 /\ ax0 <= bx1 /\ by0 <= ay1 /\ ay0 <= by1.

(** ** The grouping loop *)

Section Grouping.
Context {A : Type}.

(** The test applied between a group member and a candidate; in the
    program it is [rectangles_should_merge] at the call's thresholds. *)
Variable should_merge : A -> A -> bool.

(** State of one [for j, rect2 in enumerate(rects)] sweep. *)
Record sweep_state : Type := SweepState {
  group : list A;
  used : list bool;
  changed : bool
}.

(** [used[j]]; the flag array always has one entry per rectangle. *)
Definition flag (used : list bool) (j : nat) : bool :=
  default false (used !! j).

(** Body of the inner [for]: skip claimed entries, otherwise test the
    candidate against every member of the group (the [break] makes the
    member loop an existence test) and absorb it on success. *)
Definition sweep_step (s : sweep_state) (j : nat) (rect2 : A) : sweep_state :=
  if flag (used s) j then s
  else if existsb (fun group_rect => should_merge group_rect rect2) (group s)
  then SweepState (group s ++ [rect2]) (<[j:=true]> (used s)) true
  else s.

(** [for j, rect2 in enumerate(rects)], from index [j] on. *)
Fixpoint sweep (j : nat) (rects : list A) (s : sweep_state) : sweep_state :=
  match rects with
  | [] => s
  | rect2 :: rest => sweep (S j) rest (sweep_step s j rect2)
  end.

(** [while changed: changed = False; for ...].  The loop is bounded by
    [fuel]; [None] stands for a loop still running when it is spent. *)
Fixpoint grow (fuel : nat) (rects : list A) (group : list A)
    (used : list bool) : option (list A * list bool) :=
  match fuel with
  | O => None
  | S fuel' =>
      let s := sweep 0 rects (SweepState group used false) in
      if changed s then grow fuel' rects (Grouping.group s) (Grouping.used s)
      else Some (Grouping.group s, Grouping.used s)
  end.

(** The outer [for i, rect1 in enumerate(rects)], keeping each finished
    group itself.  [all] is the whole list, [rects] what is left of the
    enumeration from index [i]. *)
Fixpoint group_loop (all : list A) (i : nat) (rects : list A)
    (groups : list (list A)) (used : list bool) : option (list (list A)) :=
  match rects with
  | [] => Some groups
  | rect1 :: rest =>
      if flag used i then group_loop all (S i) rest groups used
      else
        match grow (S (length all)) all [rect1] (<[i:=true]> used) with
        | None => None
        | Some (g, used') => group_loop all (S i) rest (groups ++ [g]) used'
        end
  end.

(** The clusters found for a list, in order of their first member. *)
Definition clusters (all : list A) : option (list (list A)) :=
  group_loop all 0 all [] (replicate (length all) false).
End Grouping.

Arguments SweepState {A} _ _ _.

(** Python's [min] and [max] over a generator; an empty one raises
    [ValueError], modelled by [None]. *)
Definition py_min (l : list Z) : option Z :=
  match l with
  | [] => None
  | x :: xs => Some (foldl Z.min x xs)
  end.

Definition py_max (l : list Z) : option Z :=
  match l with
  | [] => None
  | x :: xs => Some (foldl Z.max x xs)
  end.

(** The bounding box appended to [merged], as an [(x, y, w, h)] tuple. *)
Definition bounding_box (group : list rect) : option rect :=
  min_x ← py_min (map (fun r : rect => r.1.1.1) group);
  min_y ← py_min (map (fun r : rect => r.1.1.2) group);
  max_x ← py_max (map (fun r : rect => r.1.2) group);
  max_y ← py_max (map (fun r : rect => r.2) group);
  Some (min_x, min_y, max_x - min_x, max_y - min_y).

(** The outer loop of [merge_nearby_rectangles] as the program runs it:
    each finished group is collapsed to its bounding box at once. *)
Fixpoint merge_loop (h v : Z) (all : list rect) (i : nat) (rects : list rect)
    (merged : list rect) (used : list bool) : option (list rect) :=
  match rects with
  | [] => Some merged
  | rect1 :: rest =>
      if flag used i then merge_loop h v all (S i) rest merged used
      else
        match grow (fun a b => rectangles_should_merge a b h v)
                (S (length all)) all [rect1] (<[i:=true]> used) with
        | None => None
        | Some (g, used') =>
            match bounding_box g with
            | None => None
            | Some box => merge_loop h v all (S i) rest (merged ++ [box]) used'
            end
        end
  end.

(** [merge_nearby_rectangles(rectangles, horizontal_threshold,
    vertical_threshold)].  [None] would be a run that raises or does not
    leave the [while]; [merge_nearby_rectangles_total] shows there is none. *)
Definition merge_nearby_rectangles (rectangles : list rect)
    (horizontal_threshold vertical_threshold : Z) : option (list rect) :=
  match rectangles with
  | [] => Some []
  | _ =>
      let rects := map to_corners rectangles in
      merge_loop horizontal_threshold vertical_threshold rects 0 rects []
        (replicate (length rects) false)
  end.

(** ** Cropping a region out of the page image *)

(** The page image is a numpy array of shape [(rows, cols, 3)]; only the
    shape matters for what is extracted. *)
Record page_buffer : Type := PageBuffer {
  rows : Z;  (* [page_img.shape[0]], the page height in pixels *)
  cols : Z   (* [page_img.shape[1]], the page width in pixels *)
}.

(** A bound of a numpy slice along an axis of length [n]: a negative
    index counts from the end, and the result is cut to [0 .. n]. *)
Definition slice_bound (n i : Z) : Z :=
  if i <? 0 then Z.max 0 (i + n) else Z.min i n.

Definition slice_length (n start stop : Z) : Z :=
  Z.max 0 (slice_bound n stop - slice_bound n start).

(** [page_img[y1:y2, x1:x2].size] for a crop given as [(x1, y1, x2, y2)]. *)
Definition region_size (img : page_buffer) (crop : rect) : Z :=
  let '(x1, y1, x2, y2) := crop in
  slice_length (rows img) y1 y2 * slice_length (cols img) x1 x2 * 3.

(** Padding and clamping of a corner-form rectangle, lines 96-99. *)
Definition pad_corners (img : page_buffer) (padding : Z) (r : rect) : rect :=
  let '(x1, y1, x2, y2) := r in
  (Z.max 0 (x1 - padding), Z.max 0 (y1 - padding),
   Z.min (cols img) (x2 + padding), Z.min (rows img) (y2 + padding)).

(** Padding and clamping of a merged [(x, y, w, h)] group, lines 290-293
    and 341-344. *)
Definition pad_group (img : page_buffer) (padding : Z) (r : rect) : rect :=
  let '(x, y, w, h) := r in
  (Z.max 0 (x - padding), Z.max 0 (y - padding),
   Z.min (cols img) (x + w + padding), Z.min (rows img) (y + h + padding)).

(** ** Extraction records and written images *)

(** One dictionary appended to [extracted_items]; the key
    ["individual_regions"] exists only on the colour-detection path. *)
Record extraction_record : Type := ExtractionRecord {
  page : nat;
  type : string;
  filename : string;
  coordinates : rect;                 (* x1, y1, x2, y2 *)
  individual_regions : option nat
}.

(** What a run leaves behind: the records, and the [cv2.imwrite] calls
    as (file path, cropped rectangle) pairs in the order they were made. *)
Record output : Type := Output {
  extracted_items : list extraction_record;
  written : list (string * rect)
}.

Fixpoint ends_with_slash (s : string) : bool :=
  match s with
  | EmptyString => false
  | String c rest =>
      match rest with
      | EmptyString => bool_decide (String c EmptyString = "/")
      | _ => ends_with_slash rest
      end
  end.

(** [os.path.join(output_dir, filename)] for a relative [filename]. *)
Definition path_join (output_dir filename : string) : string :=
  if bool_decide (output_dir = "") then filename
  else if ends_with_slash output_dir then output_dir +:+ filename
  else output_dir +:+ "/" +:+ filename.

(** [len([r for r in rects if rectangles_overlap(box, r)])] *)
Definition count_overlapping (box : rect) (rects : list rect) : nat :=
  length (filter (fun r => rectangles_overlap box r = true) rects).

(** Body of [for i, (x, y, w, h) in enumerate(merged_...)] on the
    colour-detection path; [kind] is ["yellow_highlight_group"] or
    ["red_mark_group"] and [candidates] the unmerged rectangles of the
    same colour.  [out] holds the items and files of this call so far. *)
Definition emit_group (img : page_buffer) (page_num : nat)
    (output_dir : string) (start_index : nat) (kind : string)
    (candidates : list rect) (out : output) (box : rect) : output :=
  let padding := 15 in
  let crop := pad_group img padding box in
  if 0 <? region_size img crop then
    let filename :=
      "page_" +:+ pretty (page_num + 1)%nat +:+ "_" +:+ kind +:+ "_"
      +:+ pretty (start_index + length (extracted_items out) + 1)%nat
      +:+ ".png" in
    Output
      (extracted_items out ++
         [ExtractionRecord (page_num + 1) kind filename crop
            (Some (count_overlapping box candidates))])
      (written out ++ [(path_join output_dir filename, crop)])
  else out.

(** One colour block of [extract_by_color_detection]: merge the
    candidates with the block's thresholds and emit every group. *)
Definition emit_colour (img : page_buffer) (page_num : nat)
    (output_dir : string) (start_index : nat) (kind : string) (h v : Z)
    (candidates : list rect) (out : output) : option output :=
  merged ← merge_nearby_rectangles candidates h v;
  Some (foldl (emit_group img page_num output_dir start_index kind candidates)
          out merged).

(** [extract_by_color_detection(page_img, page_num, output_dir,
    start_index, extract_highlights, extract_handwriting)].  The OpenCV
    steps (HSV conversion, masks, contours, the area filter) are outside
    the repository; their results, the lists [yellow_rects] and
    [red_rects] built at lines 276-281 and 327-332, are taken as inputs. *)
Definition extract_by_color_detection (img : page_buffer) (page_num : nat)
    (output_dir : string) (start_index : nat)
    (extract_highlights extract_handwriting : bool)
    (yellow_rects red_rects : list rect) : option output :=
  let out := Output [] [] in
  out ← (if extract_highlights
         then emit_colour img page_num output_dir start_index
                "yellow_highlight_group" 100 50 yellow_rects out
         else Some out);
  if extract_handwriting
  then emit_colour img page_num output_dir start_index
         "red_mark_group" 80 40 red_rects out
  else Some out.

(** ** Native annotations *)

(** A value of the [annot.colors] dictionary: [None] or a sequence of
    floats. *)
Inductive py_color : Type :=
  | PyNone
  | PySeq (components : list float).

Definition black : py_color := PySeq [0%float; 0%float; 0%float].

(** The annotation fields the program reads.  [scaled] is the tuple
    [(int(rect.x0 * 3.0), int(rect.y0 * 3.0), int(rect.x1 * 3.0),
    int(rect.y1 * 3.0))] of lines 89-92. *)
Record annotation : Type := Annotation {
  annot_type : string;
  colors : gmap string py_color;
  scaled : rect
}.

(** [annot.colors.get("stroke", annot.colors.get("fill", [0, 0, 0]))],
    line 151. *)
Definition highlight_color (colors : gmap string py_color) : py_color :=
  default (default black (colors !! "fill")) (colors !! "stroke").

(** [annot.colors.get("stroke", [0, 0, 0])], line 162. *)
Definition ink_color (colors : gmap string py_color) : py_color :=
  default black (colors !! "stroke").

(** [color and len(color) >= 3], then [r, g, b = color[:3]]. *)
Definition rgb_of (color : py_color) : option (float * float * float) :=
  match color with
  | PySeq (r :: g :: b :: _) => Some (r, g, b)
  | _ => None
  end.

(** [r > 0.7 and g > 0.7 and b < 0.5] *)
Definition yellowish (c : float * float * float) : bool :=
  let '(r, g, b) := c in
  (0x1.6666666666666p-1 <? r)%float && (0x1.6666666666666p-1 <? g)%float
  && (b <? 0.5)%float.

(** [r > 0.7 and g < 0.3 and b < 0.3] *)
Definition reddish (c : float * float * float) : bool :=
  let '(r, g, b) := c in
  (0x1.6666666666666p-1 <? r)%float && (g <? 0x1.3333333333333p-2)%float
  && (b <? 0x1.3333333333333p-2)%float.

Definition highlight_types : list string :=
  ["Highlight"; "Squiggly"; "StrikeOut"; "Underline"].

Definition ink_types : list string := ["Ink"; "FreeText"].

(** [should_extract_annotation(annot, annot_type, extract_highlights,
    extract_handwriting)] *)
Definition should_extract_annotation (annot : annotation) (annot_type : string)
    (extract_highlights extract_handwriting : bool) : bool :=
  if bool_decide (annot_type ∈ highlight_types) then
    if negb extract_highlights then false
    else
      match rgb_of (highlight_color (colors annot)) with
      | Some c => yellowish c
      | None => false
      end
  else if bool_decide (annot_type ∈ ink_types) then
    if negb extract_handwriting then false
    else
      match rgb_of (ink_color (colors annot)) with
      | Some c => reddish c
      | None => false
      end
  else false.

(** Body of [for annot in annotations], lines 82-117. *)
Definition extract_annotation (img : page_buffer) (page_num : nat)
    (output_dir : string) (extract_highlights extract_handwriting : bool)
    (out : output) (annot : annotation) : output :=
  let annot_type := annot_type annot in
  if should_extract_annotation annot annot_type
       extract_highlights extract_handwriting then
    let padding := 10 in
    let crop := pad_corners img padding (scaled annot) in
    if 0 <? region_size img crop then
      let filename :=
        "page_" +:+ pretty (page_num + 1)%nat +:+ "_" +:+ annot_type +:+ "_"
        +:+ pretty (length (extracted_items out) + 1)%nat +:+ ".png" in
      Output
        (extracted_items out ++
           [ExtractionRecord (page_num + 1) annot_type filename crop None])
        (written out ++ [(path_join output_dir filename, crop)])
    else out
  else out.







(** ** The connectivity the grouping loop is meant to compute *)

Section Components.
Context {A : Type}.
Variable should_merge : A -> A -> bool.

(** No member of one list passes the merge test against a member of
    the other, in either direction. *)
Definition separated (g1 g2 : list A) : Prop :=
  forall a b, a ∈ g1 -> b ∈ g2 ->
    should_merge a b = false /\ should_merge b a = false.

(** A group grown one rectangle at a time, each newcomer passing the
    merge test against a rectangle already in the group. *)
Inductive chained : list A -> Prop :=
  | chained_seed r : chained [r]
  | chained_absorb g a r :
      chained g -> a ∈ g -> should_merge a r = true -> chained (g ++ [r]).

(** Every two different positions of the list hold groups that are
    separated. *)
Definition pairwise_separated (gs : list (list A)) : Prop :=
  forall i j g1 g2, i ≠ j -> gs !! i = Some g1 -> gs !! j = Some g2 ->
    separated g1 g2.

(** The same, by recursion on the list of groups. *)
Fixpoint all_separated (gs : list (list A)) : Prop :=
  match gs with
  | [] => True
  | g :: rest => Forall (separated g) rest /\ all_separated rest
  end.

(** No member of [g] passes the merge test against a member of [l]:
    what a sweep that absorbs nothing has established. *)
Definition closed_against (g l : list A) : Prop :=
  forall a b, a ∈ g -> b ∈ l -> should_merge a b = false.

(** The rectangles not yet claimed by a group: entries of [rects] whose
    flag in [used] is still [False]. *)
Fixpoint pending (used : list bool) (rects : list A) : list A :=
  match used, rects with
  | u :: us, r :: rs => if u then pending us rs else r :: pending us rs
  | _, _ => []
  end.

(** Each group, in the order the groups were finished, is closed
    against every later group and against the rectangles in [rest]. *)
Fixpoint closed_chain (gs : list (list A)) (rest : list A) : Prop :=
  match gs with
  | [] => True
  | g :: later =>
      closed_against g (concat later ++ rest) /\ closed_chain later rest
  end.

(** No two different positions of the list pass the merge test. *)
Definition none_merge (l : list A) : Prop :=
  forall i j a b, i ≠ j -> l !! i = Some a -> l !! j = Some b ->
    should_merge a b = false.
End Components.

(** How many merged rectangles a candidate list was counted into: each
    box with its [individual_regions] value. *)
Definition with_region_counts (candidates merged : list rect) :
    list (rect * nat) :=
  (fun box => (box, count_overlapping box candidates)) <$> merged.

(** The horizontal half of the merge test. *)
Definition horizontal_test (h : Z) (a b : rect) : bool :=
  negb ((a.1.2 <? b.1.1.1 - h) || (b.1.2 <? a.1.1.1 - h)).

(** A rectangle moved to the rows 0..10, keeping its columns. *)
Definition to_band (r : rect) : rect := (r.1.1.1, 0, r.1.2, 10).

(** A sweep state seen through a relabelling of the rectangles. *)
Definition relabel {A B : Type} (f : A -> B) (s : sweep_state (A:=A)) :
    sweep_state (A:=B) :=
  SweepState (f <$> group s) (used s) (changed s).

(** Flags only ever go from [False] to [True]. *)
Definition flags_grow (used used' : list bool) : Prop :=
  Forall2 (fun u u' => u = true -> u' = true) used used'.

(** [out] lists the bounding boxes of the groups [gs], in order. *)
Definition boxes_of (gs : list (list rect)) (out : list rect) : Prop :=
  Forall2 (fun g box => bounding_box g = Some box) gs out.

(** The merge test of one call, at its two thresholds. *)
Definition merge_test (h v : Z) : rect -> rect -> bool :=
  fun a b => rectangles_should_merge a b h v.

(** A corner-form rectangle lies inside an [(x, y, w, h)] box. *)
Definition inside (r box : rect) : Prop :=
  let '(x1, y1, x2, y2) := r in
  let '(x, y, w, h) := box in
  x <= x1 /\ y <= y1 /\ x2 <= x + w /\ y2 <= y + h.

(** A group with its bounding box and its number of members. *)
Definition group_summary (g : list rect) : option rect * nat :=
  (bounding_box g, length g).

(** A crop with no pixels in it: equal left and right, or top and bottom. *)
Definition zero_area (crop : rect) : Prop :=
  let '(x1, y1, x2, y2) := crop in x1 = x2 \/ y1 = y2.

(** [rec] was emitted for one group of the [candidates] of one colour:
    it carries that colour's [kind], the padded bounding box of a group
    found among these candidates alone, and the number of these
    candidates that overlap the box. *)
Definition from_group_of (img : page_buffer) (kind : string) (h v : Z)
    (candidates : list rect) (rec : extraction_record) : Prop :=
  type rec = kind
  /\ exists (gs : list (list rect)) (g : list rect) (box : rect),
       clusters (merge_test h v) (to_corners <$> candidates) = Some gs
       /\ g ∈ gs
       /\ (forall c, c ∈ g -> c ∈ to_corners <$> candidates)
       /\ bounding_box g = Some box
       /\ coordinates rec = pad_group img 15 box
       /\ individual_regions rec = Some (count_overlapping box candidates).

(** The colour an entry of [annot.colors] holds, if it holds one.
    PyMuPDF fills in both keys, ["stroke"] and ["fill"], for every
    annotation; an annotation without a stroke (fill) colour has [None]
    or an empty sequence under that key.  A colour is present when the
    entry is a sequence with at least one component. *)
Definition color_of (entry : option py_color) : option py_color :=
  match entry with
  | Some (PySeq (c :: cs)) => Some (PySeq (c :: cs))
  | _ => None
  end.

(** The colour lookup in the specification's words: the stroke colour
    when present, otherwise the fill colour when present, otherwise
    black. *)
Definition stroke_fill_black (colors : gmap string py_color) : py_color :=
  match color_of (colors !! "stroke") with
  | Some c => c
  | None =>
      match color_of (colors !! "fill") with
      | Some c => c
      | None => black
      end
  end.

(** A colour test applied to a looked-up colour; a colour with fewer
    than three components (or [None]) passes no test. *)
Definition passes (test : float * float * float -> bool)
    (color : py_color) : bool :=
  match rgb_of color with
  | Some c => test c
  | None => false
  end.

(** ** Notions used to state further properties *)

(** An [(x, y, w, h)] rectangle moved by [(dx, dy)], and the same move on
    a corner-form rectangle. *)
Definition translate (dx dy : Z) (r : rect) : rect :=
  let '(x, y, w, h) := r in (x + dx, y + dy, w, h).

Definition translate_corners (dx dy : Z) (r : rect) : rect :=
  let '(x1, y1, x2, y2) := r in (x1 + dx, y1 + dy, x2 + dx, y2 + dy).

(** An [(x, y, w, h)] rectangle whose width and height are not negative,
    as [cv2.boundingRect] returns them. *)
Definition sized (r : rect) : Prop :=
  let '(x, y, w, h) := r in 0 <= w /\ 0 <= h.

(** An [(x, y, w, h)] rectangle with at least one pixel that lies on the
    page. *)
Definition on_page (img : page_buffer) (r : rect) : Prop :=
  let '(x, y, w, h) := r in
  0 <= x /\ 0 <= y /\ 0 < w /\ 0 < h
  /\ x + w <= cols img /\ y + h <= rows img.

(** The left, top, right and bottom edge of an [(x, y, w, h)] rectangle. *)
Definition left_edge (r : rect) : Z := r.1.1.1.
Definition top_edge (r : rect) : Z := r.1.1.2.
Definition right_edge (r : rect) : Z := r.1.1.1 + r.1.2.
Definition bottom_edge (r : rect) : Z := r.1.1.2 + r.2.

(** The file name both paths build: [page_{page}_{kind}_{index}.png]. *)
Definition file_name (page : nat) (kind : string) (index : nat) : string :=
  "page_" +:+ pretty page +:+ "_" +:+ kind +:+ "_" +:+ pretty index
  +:+ ".png".


(** The type strings of the two colour-detected kinds of record. *)
Definition group_kinds : list string :=
  ["yellow_highlight_group"; "red_mark_group"].







(** ** The summary of [main] *)






(** * Properties *)

(** ** The merge predicate *)

Lemma rectangles_should_merge_sym (a b : rect) (h v : Z) :
  rectangles_should_merge a b h v = rectangles_should_merge b a h v.
Proof.
  destruct a as [[[ax0 ay0] ax1] ay1], b as [[[bx0 by0] bx1] by1]; simpl.
  f_equal; f_equal; apply orb_comm.
Qed.

Lemma rectangles_should_merge_true (ax0 ay0 ax1 ay1 bx0 by0 bx1 by1 h v : Z) :
  rectangles_should_merge (ax0, ay0, ax1, ay1) (bx0, by0, bx1, by1) h v = true
  <-> (bx0 - h <= ax1 /\ ax0 - h <= bx1) /\ (by0 - v <= ay1 /\ ay0 - v <= by1).
Proof.
  unfold rectangles_should_merge.
  rewrite andb_true_iff, !negb_true_iff, !orb_false_iff, !Z.ltb_ge.
  reflexivity.
Qed.

(** C1. [rectangles_should_merge a b hThresh vThresh] holds exactly when
    neither the horizontal nor the vertical extents are further apart than
    the thresholds; with non-negative thresholds two rectangles that share
    a point always pass, and the test is symmetric in the rectangles. *)
Theorem rectangles_should_merge_spec
    (ax0 ay0 ax1 ay1 bx0 by0 bx1 by1 hThresh vThresh : Z) :
  0 <= hThresh -> 0 <= vThresh ->
  let a := (ax0, ay0, ax1, ay1) in
  let b := (bx0, by0, bx1, by1) in
  (rectangles_should_merge a b hThresh vThresh = true <->
     ~ (ax1 < bx0 - hThresh \/ bx1 < ax0 - hThresh) /\
     ~ (ay1 < by0 - vThresh \/ by1 < ay0 - vThresh))
  /\ (corners_intersect a b ->
      rectangles_should_merge a b hThresh vThresh = true)
  /\ rectangles_should_merge a b hThresh vThresh
     = rectangles_should_merge b a hThresh vThresh.
Proof.
  intros Hh Hv a b. split; [|split].
  - subst a b. rewrite rectangles_should_merge_true. lia.
  - subst a b. rewrite rectangles_should_merge_true.
    unfold corners_intersect. lia.
  - apply rectangles_should_merge_sym.
Qed.

Lemma rectangles_should_merge_spec_witness :
  (rectangles_should_merge (10, 10, 60, 30) (150, 20, 200, 40) 100 50 = true <->
     ~ (60 < 150 - 100 \/ 200 < 10 - 100) /\ ~ (30 < 20 - 50 \/ 40 < 10 - 50))
  /\ (corners_intersect (10, 10, 60, 30) (150, 20, 200, 40) ->
      rectangles_should_merge (10, 10, 60, 30) (150, 20, 200, 40) 100 50 = true)
  /\ rectangles_should_merge (10, 10, 60, 30) (150, 20, 200, 40) 100 50
     = rectangles_should_merge (150, 20, 200, 40) (10, 10, 60, 30) 100 50.
Proof.
  apply (rectangles_should_merge_spec 10 10 60 30 150 20 200 40 100 50); lia.
Defined.

(** ** One sweep of the inner loop *)

Section SweepFacts.
Context {A : Type}.
Variable should_merge : A -> A -> bool.

Lemma flag_middle (pre suf : list bool) (u : bool) :
  flag (pre ++ u :: suf) (length pre) = u.
Proof. unfold flag. by rewrite list_lookup_middle. Qed.

Lemma insert_middle (pre suf : list bool) (u : bool) :
  <[length pre:=true]> (pre ++ u :: suf) = pre ++ true :: suf.
Proof.
  replace (length pre) with (length pre + 0)%nat by lia.
  by rewrite insert_app_r.
Qed.

Lemma existsb_elem_of (f : A -> bool) (l : list A) :
  existsb f l = true <-> exists a, a ∈ l /\ f a = true.
Proof.
  rewrite existsb_exists. split; intros (a & Ha & Hf); exists a; split; auto;
    by apply list_elem_of_In.
Qed.

Lemma existsb_none (f : A -> bool) (l : list A) :
  existsb f l = false -> forall a, a ∈ l -> f a = false.
Proof.
  intros Hex a Ha. destruct (f a) eqn:Hf; [|done].
  assert (existsb f l = true) by (apply existsb_elem_of; eauto). congruence.
Qed.

Lemma flags_grow_refl (used : list bool) : flags_grow used used.
Proof. unfold flags_grow. induction used; constructor; auto. Qed.

Lemma flags_grow_trans (u1 u2 u3 : list bool) :
  flags_grow u1 u2 -> flags_grow u2 u3 -> flags_grow u1 u3.
Proof.
  unfold flags_grow. intros H12. revert u3.
  induction H12; intros u3 H23; inversion H23; subst; constructor; auto.
Qed.

Lemma flags_grow_length (u1 u2 : list bool) :
  flags_grow u1 u2 -> length u1 = length u2.
Proof. apply Forall2_length. Qed.

Lemma closed_against_nil (g : list A) : closed_against should_merge g [].
Proof. intros a b _ Hb. by apply elem_of_nil in Hb. Qed.

Lemma closed_against_subset (g l l' : list A) :
  (forall x, x ∈ l' -> x ∈ l) ->
  closed_against should_merge g l -> closed_against should_merge g l'.
Proof. intros Hsub Hc a b Ha Hb. apply Hc; auto. Qed.

(** What one [for j, rect2 in enumerate(rects)] pass does, started at
    index [length pre] with the flags [pre] of the entries already
    visited: it appends the rectangles it absorbs to the group, flips
    exactly their flags, reports [changed] when it absorbed one, and if
    it absorbed none the group is closed against everything pending. *)
Lemma sweep_outcome (rs : list A) :
  forall (pre suf : list bool) (g : list A) (c : bool),
    length suf = length rs ->
    exists (absorbed : list A) (suf' : list bool),
      sweep should_merge (length pre) rs (SweepState g (pre ++ suf) c)
      = SweepState (g ++ absorbed) (pre ++ suf')
          (match absorbed with [] => c | _ => true end)
      /\ flags_grow suf suf'
      /\ pending suf rs ≡ₚ absorbed ++ pending suf' rs
      /\ (chained should_merge g -> chained should_merge (g ++ absorbed))
      /\ (absorbed = [] -> closed_against should_merge g (pending suf rs)).
Proof.
  induction rs as [|r rs IH]; intros pre suf g c Hlen.
  - destruct suf; [|done]. exists [], []. simpl.
    rewrite !app_nil_r. repeat split; auto using flags_grow_refl.
    intros _. apply closed_against_nil.
  - destruct suf as [|u suf]; [done|]. simpl in Hlen.
    simpl sweep. unfold sweep_step. simpl group. simpl used.
    rewrite flag_middle.
    assert (Hpre : forall b, length (pre ++ [b]) = S (length pre))
      by (intros b; rewrite length_app; simpl; lia).
    destruct u.
    + destruct (IH (pre ++ [true]) suf g c) as (ab & suf' & Hsw & Hfl & Hp & Hch & Hcl);
        [lia|].
      rewrite Hpre, <- !app_assoc in Hsw. simpl in Hsw.
      exists ab, (true :: suf'). rewrite Hsw. repeat split; auto.
      constructor; auto.
    + destruct (existsb _ g) eqn:Hex.
      * rewrite insert_middle.
        destruct (IH (pre ++ [true]) suf (g ++ [r]) true)
          as (ab & suf' & Hsw & Hfl & Hp & Hch & Hcl); [lia|].
        rewrite Hpre, <- !app_assoc in Hsw. simpl in Hsw.
        exists (r :: ab), (true :: suf'). rewrite Hsw.
        split; [by destruct ab|].
        split; [constructor; auto|].
        split; [simpl; by rewrite Hp|].
        split; [|done].
        intros Hg. replace (g ++ r :: ab) with ((g ++ [r]) ++ ab)
          by (by rewrite <- app_assoc).
        apply Hch. apply existsb_elem_of in Hex as (a & Ha & Hm).
        by apply chained_absorb with a.
      * destruct (IH (pre ++ [false]) suf g c)
          as (ab & suf' & Hsw & Hfl & Hp & Hch & Hcl); [lia|].
        rewrite Hpre, <- !app_assoc in Hsw. simpl in Hsw.
        exists ab, (false :: suf'). rewrite Hsw.
        split; [done|]. split; [constructor; auto|].
        split; [simpl; rewrite Hp; apply Permutation_middle|].
        split; [done|].
        intros Hab a b Ha Hb. simpl in Hb.
        apply elem_of_cons in Hb as [->|Hb].
        -- by apply (existsb_none _ _ Hex).
        -- by apply (Hcl Hab).
Qed.

Lemma pending_length_le (used : list bool) (rs : list A) :
  (length (pending used rs) <= length rs)%nat.
Proof.
  revert rs. induction used as [|u used IH]; intros [|r rs]; simpl; try lia.
  specialize (IH rs). destruct u; simpl; lia.
Qed.

Lemma pending_app (pre suf : list bool) (seen rs : list A) :
  length pre = length seen ->
  pending (pre ++ suf) (seen ++ rs) = pending pre seen ++ pending suf rs.
Proof.
  revert seen. induction pre as [|u pre IH]; intros [|d seen] Hlen;
    simpl in *; try lia; [done|].
  rewrite IH by lia. by destruct u.
Qed.

Lemma pending_all_true (pre : list bool) (seen : list A) :
  Forall (fun u => u = true) pre -> pending pre seen = [].
Proof.
  intros Hall. revert seen.
  induction Hall as [|u pre -> _ IH]; intros [|d seen]; simpl; auto.
Qed.

(** The [while] loop leaves with the group closed against what is still
    pending, as soon as the fuel exceeds the number of pending entries:
    each pass but the last claims at least one of them. *)
Lemma grow_outcome (fuel : nat) :
  forall (rs g : list A) (used : list bool),
    length used = length rs ->
    (length (pending used rs) < fuel)%nat ->
    exists (absorbed : list A) (used' : list bool),
      grow should_merge fuel rs g used = Some (g ++ absorbed, used')
      /\ flags_grow used used'
      /\ pending used rs ≡ₚ absorbed ++ pending used' rs
      /\ (chained should_merge g -> chained should_merge (g ++ absorbed))
      /\ closed_against should_merge (g ++ absorbed) (pending used' rs).
Proof.
  induction fuel as [|fuel IH]; intros rs g used Hlen Hfuel; [lia|].
  simpl grow.
  destruct (sweep_outcome rs [] used g false Hlen)
    as (ab & used1 & Hsw & Hfl & Hp & Hch & Hcl).
  simpl in Hsw. rewrite Hsw. simpl.
  destruct ab as [|a ab].
  - exists [], used1. repeat split; auto.
    rewrite app_nil_r. simpl in Hp.
    eapply closed_against_subset; [|by apply Hcl].
    intros x Hx. by rewrite Hp.
  - destruct (IH rs (g ++ a :: ab) used1) as (ab2 & used2 & Hg & Hfl2 & Hp2 & Hch2 & Hcl2).
    + rewrite <- (flags_grow_length _ _ Hfl). done.
    + apply Permutation_length in Hp. rewrite length_app in Hp.
      simpl in Hp. lia.
    + exists ((a :: ab) ++ ab2), used2. rewrite Hg, <- app_assoc.
      split; [done|]. split; [by eapply flags_grow_trans|].
      split; [by rewrite Hp, Hp2, <- app_assoc|].
      split; [|by rewrite app_assoc].
      intros Hg0. rewrite app_assoc. auto.
Qed.
End SweepFacts.

(** ** The outer loop: every run ends, and what it returns *)

Section LoopFacts.
Context {A : Type}.
Variable should_merge : A -> A -> bool.

Local Arguments grow : simpl never.

Lemma closed_chain_extend (gs : list (list A)) (rest rest' g : list A) :
  closed_chain should_merge gs rest ->
  (forall x, x ∈ g ++ rest' -> x ∈ rest) ->
  closed_against should_merge g rest' ->
  closed_chain should_merge (gs ++ [g]) rest'.
Proof.
  induction gs as [|g0 gs IH]; simpl; intros Hc Hsub Hg.
  - split; [done|done].
  - destruct Hc as [Hc0 Hc]. split; [|by apply IH].
    eapply closed_against_subset; [|exact Hc0].
    intros x. rewrite concat_app. simpl. rewrite app_nil_r.
    rewrite !elem_of_app. intros [[Hx|Hx]|Hx]; [by left|right..];
      apply Hsub; rewrite elem_of_app; auto.
Qed.

Lemma pending_all_false (l : list A) :
  pending (replicate (length l) false) l = l.
Proof. induction l as [|x l IH]; simpl; [done|by rewrite IH]. Qed.

Lemma pending_claim (pre suf : list bool) (seen rest : list A) (r : A) :
  length pre = length seen ->
  pending (pre ++ false :: suf) (seen ++ r :: rest)
  ≡ₚ r :: pending (pre ++ true :: suf) (seen ++ r :: rest).
Proof.
  intros Hlen. rewrite !pending_app by done. simpl.
  symmetry. apply Permutation_middle.
Qed.

(** Invariant of [for i, rect1 in enumerate(rects)]: entries before [i]
    are all claimed, the finished groups together with the pending
    rectangles are the input, every group is chained, and every group
    is closed against the later groups and the pending rectangles. *)
Lemma group_loop_outcome (rects : list A) :
  forall (all seen : list A) (pre suf : list bool) (groups : list (list A)),
    all = seen ++ rects ->
    length pre = length seen ->
    length suf = length rects ->
    Forall (fun u => u = true) pre ->
    concat groups ++ pending (pre ++ suf) all ≡ₚ all ->
    Forall (chained should_merge) groups ->
    closed_chain should_merge groups (pending (pre ++ suf) all) ->
    exists gs,
      group_loop should_merge all (length pre) rects groups (pre ++ suf)
      = Some gs
      /\ concat gs ≡ₚ all
      /\ Forall (chained should_merge) gs
      /\ closed_chain should_merge gs [].
Proof.
  induction rects as [|r rest IH];
    intros all seen pre suf groups Hall Hpre Hsuf Htrue Hperm Hch Hcl.
  - destruct suf; [|done]. exists groups. simpl.
    rewrite Hall, pending_app, pending_all_true in Hperm, Hcl by done.
    simpl in Hperm, Hcl. rewrite app_nil_r in Hperm. rewrite <- Hall in Hperm.
    done.
  - destruct suf as [|u suf]; [done|]. simpl in Hsuf.
    simpl group_loop. rewrite flag_middle.
    assert (Hall' : all = (seen ++ [r]) ++ rest)
      by (by rewrite <- app_assoc).
    destruct u.
    + destruct (IH all (seen ++ [r]) (pre ++ [true]) suf groups)
        as (gs & Hrun & Hres); auto.
      * rewrite !length_app. simpl. lia.
      * apply Forall_app. auto.
      * by rewrite <- app_assoc.
      * by rewrite <- app_assoc.
      * rewrite length_app, <- app_assoc in Hrun. simpl in Hrun.
        rewrite Nat.add_1_r in Hrun. eauto.
    + rewrite insert_middle.
      destruct (grow_outcome should_merge (S (length all)) all [r]
                  (pre ++ true :: suf))
        as (ab & used' & Hgrow & Hfl & Hp & Hchn & Hclo).
      { rewrite Hall, !length_app. simpl. lia. }
      { pose proof (pending_length_le (pre ++ true :: suf) all). lia. }
      rewrite Hgrow. simpl.
      apply Forall2_app_inv_l in Hfl as (pre' & k & Hfp & Hfk & ->).
      apply Forall2_cons_inv_l in Hfk as (t' & s' & Ht & Hfs & ->).
      pose proof (Ht eq_refl) as ->.
      assert (Hclaim : pending (pre ++ false :: suf) all
                       ≡ₚ (r :: ab) ++ pending (pre' ++ true :: s') all).
      { rewrite Hall at 1. rewrite pending_claim by done.
        rewrite <- Hall. simpl. by rewrite Hp. }
      destruct (IH all (seen ++ [r]) (pre' ++ [true]) s' (groups ++ [r :: ab]))
        as (gs & Hrun & Hres); auto.
      * rewrite !length_app, <- (Forall2_length _ _ _ Hfp). simpl. lia.
      * rewrite <- (Forall2_length _ _ _ Hfs). lia.
      * apply Forall_app. split; [|by repeat constructor].
        clear -Hfp Htrue. induction Hfp; inversion Htrue; subst;
          constructor; auto.
      * rewrite <- app_assoc. simpl. rewrite concat_app. simpl.
        rewrite app_nil_r, <- app_assoc, <- Hclaim. done.
      * apply Forall_app. split; [done|]. repeat constructor.
        apply (Hchn (chained_seed _ r)).
      * rewrite <- app_assoc. simpl.
        eapply closed_chain_extend; [exact Hcl| |exact Hclo].
        intros x Hx. by rewrite Hclaim.
      * rewrite length_app, <- app_assoc in Hrun. simpl in Hrun.
        rewrite Nat.add_1_r, <- (Forall2_length _ _ _ Hfp) in Hrun. eauto.
Qed.

(** The grouping loop always returns, and the groups it returns split
    the input: the groups together are a rearrangement of it, each group
    is chained, and each is closed against all later ones. *)
Lemma clusters_outcome (all : list A) :
  exists gs,
    clusters should_merge all = Some gs
    /\ concat gs ≡ₚ all
    /\ Forall (chained should_merge) gs
    /\ closed_chain should_merge gs [].
Proof.
  unfold clusters.
  apply (group_loop_outcome all all [] [] (replicate (length all) false) []);
    simpl; auto.
  - by rewrite length_replicate.
  - by rewrite pending_all_false.
Qed.

Lemma separated_sym (g1 g2 : list A) :
  separated should_merge g1 g2 -> separated should_merge g2 g1.
Proof. intros H a b Ha Hb. destruct (H b a Hb Ha). done. Qed.

Lemma all_separated_pairwise (gs : list (list A)) :
  all_separated should_merge gs -> pairwise_separated should_merge gs.
Proof.
  induction gs as [|g gs IH]; intros Hall i j g1 g2 Hij H1 H2.
  - by rewrite lookup_nil in H1.
  - destruct Hall as [Hg Hrest].
    destruct i as [|i], j as [|j]; simpl in H1, H2; simplify_eq.
    + rewrite Forall_forall in Hg. apply Hg.
      by eapply list_elem_of_lookup_2.
    + apply separated_sym. rewrite Forall_forall in Hg. apply Hg.
      by eapply list_elem_of_lookup_2.
    + apply (IH Hrest i j); auto.
Qed.

Lemma chained_nonempty (g : list A) :
  chained should_merge g -> exists r, r ∈ g.
Proof.
  intros [r|g' a r _ _ _]; exists r; [by left|].
  apply elem_of_app. right. by left.
Qed.

Lemma elem_of_concat (x : A) (ls : list (list A)) :
  x ∈ concat ls <-> exists l, x ∈ l /\ l ∈ ls.
Proof.
  induction ls as [|l ls IH]; simpl.
  - split; [by intros ?%elem_of_nil|]. by intros (l & _ & ?%elem_of_nil).
  - rewrite elem_of_app, IH. split.
    + intros [Hx|(l' & Hx & Hl')]; [exists l|exists l']; split; auto;
        [by left|by right].
    + intros (l' & Hx & [->|Hl']%elem_of_cons); [by left|right; eauto].
Qed.

Section Symmetric.
Hypothesis should_merge_sym :
  forall a b, should_merge a b = should_merge b a.

Lemma closed_chain_separated (gs : list (list A)) :
  closed_chain should_merge gs [] -> all_separated should_merge gs.
Proof using should_merge_sym.
  induction gs as [|g gs IH]; simpl; [done|].
  intros [Hg Hrest]. split; [|auto].
  apply Forall_forall. intros g2 Hg2 a b Ha Hb.
  assert (should_merge a b = false).
  { apply Hg; [done|]. rewrite app_nil_r.
    apply elem_of_concat. eauto. }
  split; [done|]. by rewrite should_merge_sym.
Qed.
End Symmetric.
End LoopFacts.

(** ** The groups are the connected components: they do not depend on
       the order of the input *)

Section Unique.
Context {A : Type} `{EqDecision A}.
Variable should_merge : A -> A -> bool.

(** A chained group cannot straddle a set that nothing merges across. *)
Lemma chained_stays_inside (S : A -> Prop) (g : list A) :
  (forall x, S x \/ ~ S x) ->
  chained should_merge g ->
  (forall a b, a ∈ g -> b ∈ g -> S a -> ~ S b ->
     should_merge a b = false /\ should_merge b a = false) ->
  (exists r, r ∈ g /\ S r) ->
  forall x, x ∈ g -> S x.
Proof.
  intros Hdec Hch. induction Hch as [r|g a r Hch IH Ha Hm];
    intros Hsep (r0 & Hr0 & HS0) x Hx.
  - apply list_elem_of_singleton in Hr0, Hx. by subst.
  - assert (Hsep' : forall a b, a ∈ g -> b ∈ g -> S a -> ~ S b ->
              should_merge a b = false /\ should_merge b a = false).
    { intros a' b' Ha' Hb'. apply Hsep; apply elem_of_app; auto. }
    assert (Hr : r ∈ g ++ [r]) by (apply elem_of_app; right; by left).
    assert (Hag : a ∈ g ++ [r]) by (apply elem_of_app; by left).
    assert (HSa : S a).
    { apply elem_of_app in Hr0 as [Hr0|Hr0].
      - apply IH; eauto.
      - apply list_elem_of_singleton in Hr0. subst r0.
        destruct (Hdec a) as [|Hna]; [done|].
        destruct (Hsep r a Hr Hag HS0 Hna). congruence. }
    apply elem_of_app in Hx as [Hx|Hx].
    + apply IH; eauto.
    + apply list_elem_of_singleton in Hx. subst x.
      destruct (Hdec r) as [|Hnr]; [done|].
      destruct (Hsep a r Hag Hr HSa Hnr). congruence.
Qed.

Lemma concat_Permutation (gs gs' : list (list A)) :
  gs ≡ₚ gs' -> concat gs ≡ₚ concat gs'.
Proof.
  induction 1 as [|g gs gs' _ IH|g1 g2 gs|gs1 gs2 gs3 _ IH1 _ IH2]; simpl.
  - done.
  - by rewrite IH.
  - rewrite !app_assoc. f_equiv. apply Permutation_app_comm.
  - by rewrite IH1.
Qed.

Lemma all_separated_Permutation (gs gs' : list (list A)) :
  gs ≡ₚ gs' ->
  all_separated should_merge gs -> all_separated should_merge gs'.
Proof.
  induction 1 as [|g gs gs' Hp IH|g1 g2 gs|gs1 gs2 gs3 _ IH1 _ IH2]; simpl.
  - done.
  - intros [Hg Hrest]. split; [by rewrite <- Hp|auto].
  - intros [Hg2 [Hg1 Hrest]].
    apply Forall_cons in Hg2 as [H21 Hg2].
    repeat split; auto. constructor; auto. by apply separated_sym.
  - auto.
Qed.

Lemma separated_later (g : list A) (gs : list (list A)) (a b : A) :
  Forall (separated should_merge g) gs ->
  a ∈ g -> b ∈ concat gs ->
  should_merge a b = false /\ should_merge b a = false.
Proof.
  intros Hsep Ha (g2 & Hb & Hg2)%elem_of_concat.
  rewrite Forall_forall in Hsep. by apply (Hsep g2 Hg2).
Qed.

(** Two groups, one from each of two splittings of the same
    rectangles into chained and separated groups, hold the same
    rectangles as soon as they share one. *)
Lemma shared_member_same_group (g g' : list A) (gs gs' : list (list A)) (r : A) :
  concat (g :: gs) ≡ₚ concat (g' :: gs') ->
  chained should_merge g ->
  Forall (separated should_merge g') gs' ->
  r ∈ g -> r ∈ g' ->
  forall x, x ∈ g -> x ∈ g'.
Proof.
  intros Hperm Hch Hsep Hr Hr'.
  apply (chained_stays_inside (fun x => x ∈ g')); eauto.
  - intros x. destruct (decide (x ∈ g')); auto.
  - intros a b Ha Hb Hag' Hbg'.
    assert (Hb' : b ∈ concat (g' :: gs')).
    { rewrite <- Hperm. simpl. apply elem_of_app. by left. }
    simpl in Hb'. apply elem_of_app in Hb' as [Hb'|Hb']; [done|].
    by apply (separated_later g' gs').
Qed.

(** The splitting of a duplicate-free list into chained, pairwise
    separated groups is unique up to the order of the groups and the
    order inside each group. *)
Lemma components_unique {B : Type} (f : list A -> B) :
  (forall g g', g ≡ₚ g' -> f g = f g') ->
  forall gs gs' : list (list A),
    NoDup (concat gs) ->
    concat gs ≡ₚ concat gs' ->
    Forall (chained should_merge) gs ->
    Forall (chained should_merge) gs' ->
    all_separated should_merge gs ->
    all_separated should_merge gs' ->
    f <$> gs ≡ₚ f <$> gs'.
Proof.
  intros Hf gs.
  induction gs as [|g gs IH]; intros gs' Hnd Hperm Hch Hch' Hsep Hsep'.
  - simpl in Hperm. symmetry in Hperm. apply Permutation_nil_r in Hperm.
    destruct gs' as [|g' gs']; [done|].
    apply Forall_cons in Hch' as [(r & Hr)%chained_nonempty _].
    assert (r ∈ concat (g' :: gs')) by (simpl; apply elem_of_app; by left).
    rewrite Hperm in H. by apply elem_of_nil in H.
  - apply Forall_cons in Hch as [Hg Hch].
    destruct (chained_nonempty _ _ Hg) as (r & Hr).
    assert (Hr' : r ∈ concat gs').
    { rewrite <- Hperm. simpl. apply elem_of_app. by left. }
    apply elem_of_concat in Hr' as (g' & Hr' & Hg').
    apply elem_of_Permutation in Hg' as (gs1' & Hgs').
    assert (Hperm' : concat (g :: gs) ≡ₚ concat (g' :: gs1'))
      by (by rewrite Hperm, (concat_Permutation _ _ Hgs')).
    rewrite Hgs' in Hch'. apply Forall_cons in Hch' as [Hg'c Hch'].
    apply (all_separated_Permutation _ _ Hgs') in Hsep'.
    destruct Hsep as [Hsg Hsep], Hsep' as [Hsg' Hsep'].
    assert (Hnd' : NoDup (concat (g' :: gs1'))) by (by rewrite <- Hperm').
    simpl in Hnd, Hnd'.
    apply NoDup_app in Hnd as (Hndg & _ & Hnd).
    apply NoDup_app in Hnd' as (Hndg' & _ & Hnd').
    assert (Hgg' : g ≡ₚ g').
    { apply NoDup_Permutation; auto. intros x. split.
      - by apply (shared_member_same_group g g' gs gs1' r).
      - by apply (shared_member_same_group g' g gs1' gs r). }
    rewrite Hgs'. simpl. rewrite (Hf g g' Hgg'). f_equiv.
    apply IH; auto.
    simpl in Hperm'. rewrite Hgg' in Hperm'.
    by apply Permutation_app_inv_l in Hperm'.
Qed.
End Unique.

(** The loop only looks at rectangles through the merge test, so it
    commutes with any relabelling that preserves the test. *)
Section Natural.
Context {A B : Type}.
Variable f : A -> B.
Variable merge_A : A -> A -> bool.
Variable merge_B : B -> B -> bool.
Hypothesis merge_compat : forall a b, merge_A a b = merge_B (f a) (f b).

Lemma existsb_relabel (g : list A) (r : A) :
  existsb (fun a => merge_B a (f r)) (f <$> g)
  = existsb (fun a => merge_A a r) g.
Proof using merge_compat.
  induction g as [|a g IH]; [done|].
  rewrite fmap_cons. simpl. by rewrite IH, merge_compat.
Qed.

Lemma sweep_step_relabel (s : sweep_state) (j : nat) (r : A) :
  sweep_step merge_B (relabel f s) j (f r)
  = relabel f (sweep_step merge_A s j r).
Proof using merge_compat.
  unfold sweep_step, relabel. simpl. destruct (flag (used s) j); [done|].
  rewrite existsb_relabel. destruct (existsb _ (group s)); [|done].
  simpl. by rewrite fmap_app.
Qed.

Lemma sweep_relabel (rs : list A) :
  forall (j : nat) (s : sweep_state),
    sweep merge_B j (f <$> rs) (relabel f s)
    = relabel f (sweep merge_A j rs s).
Proof using merge_compat.
  induction rs as [|r rs IH]; intros j s; [done|].
  rewrite fmap_cons. simpl. by rewrite sweep_step_relabel, IH.
Qed.

Lemma grow_relabel (fuel : nat) :
  forall (rs g : list A) (used : list bool),
    grow merge_B fuel (f <$> rs) (f <$> g) used
    = (fun p : list A * list bool => (f <$> p.1, p.2))
      <$> grow merge_A fuel rs g used.
Proof using merge_compat.
  induction fuel as [|fuel IH]; intros rs g used; simpl; [done|].
  change (SweepState (f <$> g) used false)
    with (relabel f (SweepState g used false)).
  rewrite sweep_relabel. simpl.
  destruct (changed (sweep merge_A 0 rs _)); [by rewrite IH|done].
Qed.

Local Arguments grow : simpl never.

Lemma group_loop_relabel (rects : list A) :
  forall (all : list A) (i : nat) (groups : list (list A)) (used : list bool),
    group_loop merge_B (f <$> all) i (f <$> rects)
      (fmap (M:=list) f <$> groups) used
    = fmap (M:=list) (fmap (M:=list) f)
      <$> group_loop merge_A all i rects groups used.
Proof using merge_compat.
  induction rects as [|r rects IH]; intros all i groups used; [done|].
  rewrite fmap_cons. simpl.
  destruct (flag used i); [by rewrite IH|].
  rewrite length_fmap.
  change [f r] with (f <$> [r]). rewrite grow_relabel.
  destruct (grow merge_A _ all [r] _) as [[g used']|]; simpl; [|done].
  rewrite <- IH. by rewrite fmap_app.
Qed.

Lemma clusters_relabel (all : list A) :
  clusters merge_B (f <$> all)
  = fmap (M:=list) (fmap (M:=list) f) <$> clusters merge_A all.
Proof using merge_compat.
  unfold clusters. rewrite length_fmap.
  apply (group_loop_relabel all all 0 []).
Qed.
End Natural.

Section Reordering.
Context {B C : Type}.
Variable merge_B : B -> B -> bool.
Hypothesis merge_B_sym : forall a b, merge_B a b = merge_B b a.
Context `{EqDecision B}.

(** Rearranging the input rearranges the groups and nothing else: any
    summary of a group that ignores the order of its members is found
    the same number of times in both runs. *)
Lemma clusters_Permutation (F : list B -> C) (l l' : list B) :
  (forall g g', g ≡ₚ g' -> F g = F g') ->
  l ≡ₚ l' ->
  exists gs gs',
    clusters merge_B l = Some gs
    /\ clusters merge_B l' = Some gs'
    /\ F <$> gs ≡ₚ F <$> gs'.
Proof using merge_B_sym EqDecision0.
  intros HF Hl.
  set (tl := zip (seq 0 (length l)) l).
  assert (Htl : tl.*2 = l) by (apply snd_zip; rewrite length_seq; lia).
  assert (Hnd : NoDup tl) by (apply NoDup_zip_l, NoDup_seq).
  rewrite <- Htl in Hl. symmetry in Hl.
  apply Permutation_map_inv in Hl as (tl' & -> & Hperm).
  rewrite <- Htl.
  set (merge_T := fun a b : nat * B => merge_B a.2 b.2).
  destruct (clusters_outcome merge_T tl) as (tgs & Hrun & Hcat & Hch & Hcl).
  destruct (clusters_outcome merge_T tl') as (tgs' & Hrun' & Hcat' & Hch' & Hcl').
  exists (fmap (M:=list) snd <$> tgs), (fmap (M:=list) snd <$> tgs').
  rewrite !(clusters_relabel snd merge_T merge_B) by done.
  rewrite Hrun, Hrun'. repeat split.
  rewrite <- !list_fmap_compose.
  apply (components_unique merge_T).
  - intros g g' Hg. simpl. apply HF. by rewrite Hg.
  - by rewrite Hcat.
  - by rewrite Hcat, Hcat'.
  - done.
  - done.
  - apply closed_chain_separated; [|done]. intros a b. apply merge_B_sym.
  - apply closed_chain_separated; [|done]. intros a b. apply merge_B_sym.
Qed.
End Reordering.

(** ** Bounding boxes *)

Lemma foldl_min_spec (xs : list Z) :
  forall x, let m := foldl Z.min x xs in
    m ∈ x :: xs /\ Forall (fun y => m <= y) (x :: xs).
Proof.
  induction xs as [|y xs IH]; intros x; simpl.
  - split; [by left|]. repeat constructor. lia.
  - destruct (IH (Z.min x y)) as [Hin Hle]. split.
    + apply elem_of_cons in Hin as [->|Hin].
      * destruct (Z.min_spec x y) as [[_ ->]|[_ ->]];
          [by left|right; by left].
      * right. by right.
    + apply Forall_cons in Hle as [Hm Hle].
      repeat constructor; auto; lia.
Qed.

Lemma foldl_max_spec (xs : list Z) :
  forall x, let m := foldl Z.max x xs in
    m ∈ x :: xs /\ Forall (fun y => y <= m) (x :: xs).
Proof.
  induction xs as [|y xs IH]; intros x; simpl.
  - split; [by left|]. repeat constructor. lia.
  - destruct (IH (Z.max x y)) as [Hin Hle]. split.
    + apply elem_of_cons in Hin as [->|Hin].
      * destruct (Z.max_spec x y) as [[_ ->]|[_ ->]];
          [right; by left|by left].
      * right. by right.
    + apply Forall_cons in Hle as [Hm Hle].
      repeat constructor; auto; lia.
Qed.

Lemma py_min_spec (l : list Z) (m : Z) :
  py_min l = Some m -> m ∈ l /\ Forall (fun y => m <= y) l.
Proof.
  destruct l as [|x xs]; [done|]. intros [= <-]. apply foldl_min_spec.
Qed.

Lemma py_max_spec (l : list Z) (m : Z) :
  py_max l = Some m -> m ∈ l /\ Forall (fun y => y <= m) l.
Proof.
  destruct l as [|x xs]; [done|]. intros [= <-]. apply foldl_max_spec.
Qed.

Lemma py_min_Permutation (l l' : list Z) :
  l ≡ₚ l' -> py_min l = py_min l'.
Proof.
  intros Hp. destruct (py_min l) as [m|] eqn:Hm, (py_min l') as [m'|] eqn:Hm'.
  - apply py_min_spec in Hm as [Hin Hle], Hm' as [Hin' Hle'].
    rewrite Forall_forall in Hle, Hle'.
    rewrite Hp in Hin. rewrite <- Hp in Hin'.
    specialize (Hle _ Hin'). specialize (Hle' _ Hin). f_equal. lia.
  - destruct l' as [|x' l']; [|done].
    apply Permutation_nil_r in Hp. by subst.
  - destruct l as [|x l]; [|done].
    symmetry in Hp. apply Permutation_nil_r in Hp. by subst.
  - done.
Qed.

Lemma py_max_Permutation (l l' : list Z) :
  l ≡ₚ l' -> py_max l = py_max l'.
Proof.
  intros Hp. destruct (py_max l) as [m|] eqn:Hm, (py_max l') as [m'|] eqn:Hm'.
  - apply py_max_spec in Hm as [Hin Hle], Hm' as [Hin' Hle'].
    rewrite Forall_forall in Hle, Hle'.
    rewrite Hp in Hin. rewrite <- Hp in Hin'.
    specialize (Hle _ Hin'). specialize (Hle' _ Hin). f_equal. lia.
  - destruct l' as [|x' l']; [|done].
    apply Permutation_nil_r in Hp. by subst.
  - destruct l as [|x l]; [|done].
    symmetry in Hp. apply Permutation_nil_r in Hp. by subst.
  - done.
Qed.

Lemma bounding_box_Permutation (g g' : list rect) :
  g ≡ₚ g' -> bounding_box g = bounding_box g'.
Proof.
  intros Hp. unfold bounding_box.
  rewrite (py_min_Permutation _ _
             (Permutation_map (fun r : rect => r.1.1.1) Hp)).
  rewrite (py_min_Permutation _ _
             (Permutation_map (fun r : rect => r.1.1.2) Hp)).
  rewrite (py_max_Permutation _ _
             (Permutation_map (fun r : rect => r.1.2) Hp)).
  rewrite (py_max_Permutation _ _
             (Permutation_map (fun r : rect => r.2) Hp)).
  reflexivity.
Qed.

Lemma bounding_box_nonempty (r : rect) (g : list rect) :
  exists box, bounding_box (r :: g) = Some box.
Proof. unfold bounding_box. simpl. eauto. Qed.

Lemma bounding_box_chained (R : rect -> rect -> bool) (g : list rect) :
  chained R g -> exists box, bounding_box g = Some box.
Proof.
  intros (r & Hr)%chained_nonempty. destruct g as [|r0 g].
  - by apply elem_of_nil in Hr.
  - apply bounding_box_nonempty.
Qed.

(** The bounding box of a group covers each of its members. *)
Lemma bounding_box_covers (g : list rect) (x y w h x1 y1 x2 y2 : Z) :
  bounding_box g = Some (x, y, w, h) ->
  (x1, y1, x2, y2) ∈ g ->
  x <= x1 /\ y <= y1 /\ x2 <= x + w /\ y2 <= y + h.
Proof.
  unfold bounding_box. intros Hbox Hin.
  apply bind_Some in Hbox as (min_x & Hminx & Hbox).
  apply bind_Some in Hbox as (min_y & Hminy & Hbox).
  apply bind_Some in Hbox as (max_x & Hmaxx & Hbox).
  apply bind_Some in Hbox as (max_y & Hmaxy & Hbox).
  injection Hbox as <- <- <- <-.
  apply py_min_spec in Hminx as [_ Hminx], Hminy as [_ Hminy].
  apply py_max_spec in Hmaxx as [_ Hmaxx], Hmaxy as [_ Hmaxy].
  rewrite Forall_forall in Hminx, Hminy, Hmaxx, Hmaxy.
  assert (Hproj : forall f : rect -> Z, f (x1, y1, x2, y2) ∈ map f g).
  { intros f. apply list_elem_of_In, in_map, list_elem_of_In, Hin. }
  specialize (Hminx _ (Hproj (fun r => r.1.1.1))).
  specialize (Hminy _ (Hproj (fun r => r.1.1.2))).
  specialize (Hmaxx _ (Hproj (fun r => r.1.2))).
  specialize (Hmaxy _ (Hproj (fun r => r.2))).
  simpl in *. lia.
Qed.

Lemma bounding_box_single (r : rect) : bounding_box [to_corners r] = Some r.
Proof.
  destruct r as [[[x y] w] h]. unfold bounding_box. simpl.
  do 2 f_equal; [f_equal|]; lia.
Qed.

(** ** [merge_nearby_rectangles] through its groups *)

Section Extends.
Context {A : Type}.
Variable should_merge : A -> A -> bool.

Lemma sweep_extends (rs : list A) :
  forall (j : nat) (s : sweep_state),
    exists ab, group (sweep should_merge j rs s) = group s ++ ab.
Proof.
  induction rs as [|r rs IH]; intros j s; simpl.
  - exists []. by rewrite app_nil_r.
  - destruct (IH (S j) (sweep_step should_merge s j r)) as (ab & ->).
    unfold sweep_step. destruct (flag (used s) j); [eauto|].
    destruct (existsb _ (group s)); [|eauto].
    simpl. exists (r :: ab). by rewrite <- app_assoc.
Qed.

Lemma grow_extends (fuel : nat) :
  forall (rs g g' : list A) (used used' : list bool),
    grow should_merge fuel rs g used = Some (g', used') ->
    exists ab, g' = g ++ ab.
Proof.
  induction fuel as [|fuel IH]; intros rs g g' used used'; simpl; [done|].
  destruct (sweep_extends rs 0 (SweepState g used false)) as (ab & Hab).
  simpl in Hab. destruct (changed _).
  - intros (ab' & ->)%IH. rewrite Hab. exists (ab ++ ab').
    by rewrite app_assoc.
  - intros [= <- <-]. eauto.
Qed.

(** A [while] loop that has left gives the same result with any larger
    bound: the bound is never what ends it. *)
Lemma grow_more_fuel (fuel : nat) :
  forall (fuel' : nat) (rs g : list A) (used : list bool)
         (result : list A * list bool),
    (fuel <= fuel')%nat ->
    grow should_merge fuel rs g used = Some result ->
    grow should_merge fuel' rs g used = Some result.
Proof.
  induction fuel as [|fuel IH]; intros fuel' rs g used result Hle; [done|].
  destruct fuel' as [|fuel']; [lia|]. simpl.
  destruct (changed _); [|done]. apply IH. lia.
Qed.
End Extends.

Lemma merge_loop_groups (h v : Z) (rects : list rect) :
  forall (all : list rect) (i : nat) (groups : list (list rect))
         (merged : list rect) (used : list bool),
    boxes_of groups merged ->
    merge_loop h v all i rects merged used
    = gs ← group_loop (merge_test h v) all i rects groups used;
      mapM bounding_box gs.
Proof.
  induction rects as [|r rest IH]; intros all i groups merged used Hboxes.
  - simpl. symmetry. by apply mapM_Some.
  - cbn [merge_loop group_loop]. destruct (flag used i); [by apply IH|].
    change (fun a b => rectangles_should_merge a b h v) with (merge_test h v).
    destruct (grow (merge_test h v) _ all [r] _) as [[g used']|] eqn:Hgrow;
      [|done].
    apply grow_extends in Hgrow as (ab & ->).
    destruct (bounding_box_nonempty r ab) as (box & Hbox).
    simpl app at 1. rewrite Hbox. apply IH.
    apply Forall2_app; [done|]. by repeat constructor.
Qed.

Lemma merge_nearby_rectangles_clusters (rectangles : list rect) (h v : Z) :
  merge_nearby_rectangles rectangles h v
  = gs ← clusters (merge_test h v) (to_corners <$> rectangles);
    mapM bounding_box gs.
Proof.
  destruct rectangles as [|r l]; [done|].
  unfold merge_nearby_rectangles, clusters.
  apply (merge_loop_groups h v (to_corners <$> r :: l)
           (to_corners <$> r :: l) 0 [] []).
  constructor.
Qed.

Lemma boxes_exist (R : rect -> rect -> bool) (gs : list (list rect)) :
  Forall (chained R) gs -> exists out, boxes_of gs out.
Proof.
  induction 1 as [|g gs Hg _ (out & IH)].
  - exists []. constructor.
  - destruct (bounding_box_chained R g Hg) as (box & Hbox).
    exists (box :: out). by constructor.
Qed.

Lemma merge_test_sym (h v : Z) (a b : rect) :
  merge_test h v a b = merge_test h v b a.
Proof. apply rectangles_should_merge_sym. Qed.

(** Every call returns.  The rectangles returned are the bounding boxes
    of groups that split the input (in corner form), each group chained
    by the merge test and no two groups linked by it. *)
Lemma merge_nearby_rectangles_outcome (rectangles : list rect) (h v : Z) :
  exists (gs : list (list rect)) (merged : list rect),
    clusters (merge_test h v) (to_corners <$> rectangles) = Some gs
    /\ merge_nearby_rectangles rectangles h v = Some merged
    /\ boxes_of gs merged
    /\ concat gs ≡ₚ to_corners <$> rectangles
    /\ Forall (chained (merge_test h v)) gs
    /\ pairwise_separated (merge_test h v) gs.
Proof.
  destruct (clusters_outcome (merge_test h v) (to_corners <$> rectangles))
    as (gs & Hrun & Hcat & Hch & Hcl).
  destruct (boxes_exist _ gs Hch) as (merged & Hboxes).
  exists gs, merged. rewrite merge_nearby_rectangles_clusters, Hrun. simpl.
  split; [done|]. split; [by apply mapM_Some|].
  split; [done|]. split; [done|]. split; [done|].
  apply all_separated_pairwise, closed_chain_separated; auto.
  apply merge_test_sym.
Qed.

Lemma merge_nearby_rectangles_total (rectangles : list rect) (h v : Z) :
  exists merged, merge_nearby_rectangles rectangles h v = Some merged.
Proof.
  destruct (merge_nearby_rectangles_outcome rectangles h v)
    as (gs & merged & _ & Hrun & _). eauto.
Qed.

(** C10. Every input rectangle lies inside the bounding box of one of the
    groups returned, and the empty list gives the empty list. *)
Theorem merged_boxes_cover_input (rectangles : list rect) (h v : Z) :
  merge_nearby_rectangles [] h v = Some []
  /\ exists merged,
       merge_nearby_rectangles rectangles h v = Some merged
       /\ forall r, r ∈ rectangles ->
            exists box, box ∈ merged /\ inside (to_corners r) box.
Proof.
  split; [done|].
  destruct (merge_nearby_rectangles_outcome rectangles h v)
    as (gs & merged & _ & Hrun & Hboxes & Hcat & _).
  exists merged. split; [done|]. intros r Hr.
  assert (Hin : to_corners r ∈ concat gs).
  { rewrite Hcat. by apply list_elem_of_fmap_2. }
  apply elem_of_concat in Hin as (g & Hin & Hg).
  apply list_elem_of_lookup in Hg as (k & Hk).
  destruct (Forall2_lookup_l _ _ _ _ _ Hboxes Hk) as (box & Hbox & Hbb).
  exists box. split; [by eapply list_elem_of_lookup_2|].
  destruct (to_corners r) as [[[x1 y1] x2] y2] eqn:Hc.
  destruct box as [[[x y] w] hh]. simpl.
  by apply (bounding_box_covers g).
Qed.

(** ** Lists in which nothing merges *)

Section Apart.
Context {A : Type}.
Variable should_merge : A -> A -> bool.

(** A sweep over a list against which the group is closed changes
    nothing. *)
Lemma sweep_closed (rs : list A) :
  forall (pre suf : list bool) (g : list A) (c : bool),
    length suf = length rs ->
    closed_against should_merge g (pending suf rs) ->
    sweep should_merge (length pre) rs (SweepState g (pre ++ suf) c)
    = SweepState g (pre ++ suf) c.
Proof.
  induction rs as [|r rs IH]; intros pre suf g c Hlen Hcl; [done|].
  destruct suf as [|u suf]; [done|]. simpl in Hlen.
  simpl sweep. unfold sweep_step. simpl group. simpl used.
  rewrite flag_middle.
  assert (Hnext : forall s, sweep should_merge (S (length pre)) rs s
                   = sweep should_merge (length (pre ++ [u])) rs s).
  { intros s. by rewrite length_app, Nat.add_1_r. }
  assert (Hused : pre ++ u :: suf = (pre ++ [u]) ++ suf)
    by (by rewrite <- app_assoc).
  destruct u.
  - rewrite Hnext, Hused. apply IH; [lia|done].
  - destruct (existsb _ g) eqn:Hex.
    + apply existsb_elem_of in Hex as (a & Ha & Hm).
      rewrite (Hcl a r Ha) in Hm; [done|]. simpl. by left.
    + rewrite Hnext, Hused. apply IH; [lia|].
      eapply closed_against_subset; [|exact Hcl].
      intros x Hx. simpl. by right.
Qed.

Lemma grow_closed (fuel : nat) (rs g : list A) (used : list bool) :
  length used = length rs ->
  closed_against should_merge g (pending used rs) ->
  grow should_merge (S fuel) rs g used = Some (g, used).
Proof.
  intros Hlen Hcl.
  pose proof (sweep_closed rs [] used g false Hlen Hcl) as Hs.
  simpl in Hs. simpl. by rewrite Hs.
Qed.

Local Arguments grow : simpl never.

(** When no two entries of the list merge, the outer loop makes one
    group of each entry, in order. *)
Lemma group_loop_apart (rects : list A) :
  forall (all seen : list A) (groups : list (list A)),
    all = seen ++ rects ->
    none_merge should_merge all ->
    group_loop should_merge all (length seen) rects groups
      (replicate (length seen) true ++ replicate (length rects) false)
    = Some (groups ++ ((fun r => [r]) <$> rects)).
Proof.
  induction rects as [|r rest IH]; intros all seen groups Hall Hnone.
  - simpl. by rewrite app_nil_r.
  - assert (Hpre : length (replicate (length seen) true) = length seen)
      by apply length_replicate.
    assert (Htrue : Forall (fun u => u = true) (replicate (length seen) true))
      by (by apply Forall_replicate).
    assert (Hnext : replicate (length seen) true ++ [true]
                    = replicate (length (seen ++ [r])) true).
    { by rewrite length_app, Nat.add_1_r, replicate_S_end. }
    revert Hpre Htrue Hnext. generalize (replicate (length seen) true).
    intros pre Hpre Htrue Hnext. rewrite <- Hpre.
    cbn [group_loop length replicate].
    rewrite flag_middle, insert_middle.
    rewrite grow_closed.
    + replace (pre ++ true :: replicate (length rest) false)
        with ((pre ++ [true]) ++ replicate (length rest) false)
        by (by rewrite <- app_assoc).
      rewrite Hnext.
      replace (S (length pre)) with (length (seen ++ [r]))
        by (rewrite length_app; simpl; lia).
      rewrite (IH all (seen ++ [r]) (groups ++ [[r]])); auto.
      * rewrite <- app_assoc. done.
      * by rewrite <- app_assoc.
    + rewrite Hall, !length_app, Hpre. simpl.
      by rewrite length_replicate.
    + rewrite Hall.
      rewrite pending_app by done.
      rewrite pending_all_true by done.
      simpl. rewrite pending_all_false.
      intros a b ->%list_elem_of_singleton (k & Hk)%list_elem_of_lookup.
      apply (Hnone (length seen) (length seen + S k)%nat); [lia| |].
      * rewrite Hall. by apply list_lookup_middle.
      * rewrite Hall, lookup_app_r by lia.
        replace (length seen + S k - length seen)%nat with (S k) by lia.
        done.
Qed.

Lemma clusters_apart (all : list A) :
  none_merge should_merge all ->
  clusters should_merge all = Some ((fun r => [r]) <$> all).
Proof.
  intros Hnone. unfold clusters.
  apply (group_loop_apart all all [] [] eq_refl Hnone).
Qed.

Lemma singletons (gs : list (list A)) :
  Forall (chained should_merge) gs ->
  length (concat gs) = length gs ->
  Forall (fun g => exists r, g = [r]) gs.
Proof.
  intros Hch. assert (Hge : forall gs' : list (list A),
    Forall (chained should_merge) gs' ->
    (length gs' <= length (concat gs'))%nat).
  { induction 1 as [|g gs' Hg _ IH]; simpl; [lia|].
    rewrite length_app. destruct Hg; simpl; [lia|].
    rewrite length_app. simpl. lia. }
  induction Hch as [|g gs Hg Hch IH]; intros Hlen; constructor.
  - simpl in Hlen. rewrite length_app in Hlen. specialize (Hge gs Hch).
    destruct Hg as [r|g a r Hg Ha _]; [eauto|].
    rewrite length_app in Hlen. simpl in Hlen.
    destruct g; [by apply elem_of_nil in Ha|]. simpl in Hlen. lia.
  - apply IH. simpl in Hlen. rewrite length_app in Hlen.
    specialize (Hge gs Hch). destruct Hg; simpl in Hlen; [lia|].
    rewrite length_app in Hlen. simpl in Hlen. lia.
Qed.
End Apart.

Lemma boxes_of_singletons (l : list rect) :
  boxes_of ((fun r => [r]) <$> (to_corners <$> l)) l.
Proof.
  induction l as [|r l IH]; constructor; [|done].
  apply bounding_box_single.
Qed.

Lemma bounding_box_single_inv (c box : rect) :
  bounding_box [c] = Some box -> c = to_corners box.
Proof.
  destruct c as [[[x1 y1] x2] y2]. unfold bounding_box. simpl.
  intros [= <-]. simpl. do 3 f_equal; lia.
Qed.

(** Merging a list again returns it unchanged exactly when no two of
    its rectangles pass the merge test. *)
Lemma merge_fixed_point (l : list rect) (h v : Z) :
  none_merge (merge_test h v) (to_corners <$> l)
  <-> merge_nearby_rectangles l h v = Some l.
Proof.
  split.
  - intros Hnone.
    rewrite merge_nearby_rectangles_clusters, clusters_apart by done.
    simpl. apply mapM_Some, boxes_of_singletons.
  - intros Hrun.
    destruct (merge_nearby_rectangles_outcome l h v)
      as (gs & merged & _ & Hrun' & Hboxes & Hcat & Hch & Hsep).
    rewrite Hrun in Hrun'. injection Hrun' as <-.
    assert (Hone : Forall (fun g => exists r, g = [r]) gs).
    { apply (singletons (merge_test h v)); [done|].
      rewrite (Permutation_length Hcat), length_fmap.
      symmetry. apply (Forall2_length _ _ _ Hboxes). }
    assert (Hgs : forall i a, (to_corners <$> l) !! i = Some a ->
                   gs !! i = Some [a]).
    { intros i a Ha. rewrite list_lookup_fmap in Ha.
      destruct (l !! i) as [box|] eqn:Hi; [|done]. injection Ha as <-.
      destruct (Forall2_lookup_r _ _ _ _ _ Hboxes Hi) as (g & Hg & Hbb).
      rewrite Hg. rewrite Forall_forall in Hone.
      destruct (Hone g) as (r & ->); [by eapply list_elem_of_lookup_2|].
      by rewrite (bounding_box_single_inv _ _ Hbb). }
    intros i j a b Hij Ha Hb.
    destruct (Hsep i j [a] [b] Hij (Hgs _ _ Ha) (Hgs _ _ Hb) a b) as [H _];
      [by left|by left|done].
Qed.

(** C4, as the program has it.  No rectangle of one returned group passes
    the merge test against a rectangle of another group; the bounding
    boxes of two groups may still pass it, and merging the returned
    boxes again gives them back unchanged exactly when no two of them
    pass it. *)
Theorem merging_again (rectangles : list rect) (h v : Z) :
  exists (gs : list (list rect)) (merged : list rect),
    clusters (merge_test h v) (to_corners <$> rectangles) = Some gs
    /\ merge_nearby_rectangles rectangles h v = Some merged
    /\ boxes_of gs merged
    /\ pairwise_separated (merge_test h v) gs
    /\ (none_merge (merge_test h v) (to_corners <$> merged)
        <-> merge_nearby_rectangles merged h v = Some merged).
Proof.
  destruct (merge_nearby_rectangles_outcome rectangles h v)
    as (gs & merged & Hgs & Hrun & Hboxes & _ & _ & Hsep).
  exists gs, merged. split; [done|]. split; [done|]. split; [done|].
  split; [done|]. apply merge_fixed_point.
Qed.

(** An L-shaped pair of strokes and a small mark in the corner they
    leave free: the mark merges with neither stroke, but it lies inside
    their bounding box, so a second pass merges the two boxes. *)
Lemma merging_again_counterexample :
  merge_nearby_rectangles
    [(0, 0, 10, 1000); (0, 990, 1000, 10); (500, 200, 10, 10)] 100 50
  = Some [(0, 0, 1000, 1000); (500, 200, 10, 10)]
  /\ rectangles_should_merge (to_corners (0, 0, 1000, 1000))
       (to_corners (500, 200, 10, 10)) 100 50 = true
  /\ merge_nearby_rectangles [(0, 0, 1000, 1000); (500, 200, 10, 10)] 100 50
     = Some [(0, 0, 1000, 1000)]
  /\ merge_nearby_rectangles [(0, 0, 1000, 1000); (500, 200, 10, 10)] 100 50
     <> Some [(0, 0, 1000, 1000); (500, 200, 10, 10)].
Proof. repeat split; try (vm_compute; reflexivity). vm_compute. discriminate. Qed.

(** ** The order of the input does not matter *)

Lemma group_summary_Permutation (g g' : list rect) :
  g ≡ₚ g' -> group_summary g = group_summary g'.
Proof.
  intros Hp. unfold group_summary.
  by rewrite (bounding_box_Permutation g g' Hp), (Permutation_length Hp).
Qed.

Lemma count_overlapping_Permutation (box : rect) (l l' : list rect) :
  l ≡ₚ l' -> count_overlapping box l = count_overlapping box l'.
Proof. intros Hp. unfold count_overlapping. by rewrite Hp. Qed.

Lemma boxes_of_fmap (gs : list (list rect)) (merged : list rect) :
  boxes_of gs merged -> bounding_box <$> gs = Some <$> merged.
Proof. induction 1 as [|g box gs merged Hg _ IH]; simpl; [done|]. by f_equal. Qed.

(** C5. Run on a list and on any rearrangement of it (in particular on
    the same list twice), [merge_nearby_rectangles] finds the same groups
    up to order: the same bounding boxes, each as often, with the same
    numbers of members and the same [individual_regions] counts. *)
Theorem merge_order_independent (l l' : list rect) (h v : Z) :
  l ≡ₚ l' ->
  exists (gs gs' : list (list rect)) (merged merged' : list rect),
    clusters (merge_test h v) (to_corners <$> l) = Some gs
    /\ merge_nearby_rectangles l h v = Some merged
    /\ boxes_of gs merged
    /\ clusters (merge_test h v) (to_corners <$> l') = Some gs'
    /\ merge_nearby_rectangles l' h v = Some merged'
    /\ boxes_of gs' merged'
    /\ group_summary <$> gs ≡ₚ group_summary <$> gs'
    /\ merged ≡ₚ merged'
    /\ with_region_counts l merged ≡ₚ with_region_counts l' merged'.
Proof.
  intros Hl.
  destruct (clusters_Permutation (merge_test h v) (merge_test_sym h v)
              group_summary (to_corners <$> l) (to_corners <$> l'))
    as (gs & gs' & Hgs & Hgs' & Hsum).
  { apply group_summary_Permutation. }
  { by rewrite Hl. }
  destruct (merge_nearby_rectangles_outcome l h v)
    as (gs0 & merged & Hgs0 & Hrun & Hboxes & _).
  destruct (merge_nearby_rectangles_outcome l' h v)
    as (gs0' & merged' & Hgs0' & Hrun' & Hboxes' & _).
  rewrite Hgs in Hgs0. injection Hgs0 as <-.
  rewrite Hgs' in Hgs0'. injection Hgs0' as <-.
  exists gs, gs', merged, merged'.
  assert (Hmerged : merged ≡ₚ merged').
  { assert (Hb : fst <$> (group_summary <$> gs)
                 ≡ₚ fst <$> (group_summary <$> gs')) by (by rewrite Hsum).
    rewrite <- !list_fmap_compose in Hb.
    change (fst ∘ group_summary) with bounding_box in Hb.
    rewrite (boxes_of_fmap _ _ Hboxes), (boxes_of_fmap _ _ Hboxes') in Hb.
    apply (fmap_Permutation (default (0, 0, 0, 0))) in Hb.
    rewrite <- !list_fmap_compose in Hb.
    by rewrite !list_fmap_id in Hb. }
  repeat (split; [done|]).
  assert (Hc : with_region_counts l merged = with_region_counts l' merged).
  { apply list_fmap_ext. intros i box _. f_equal.
    by apply count_overlapping_Permutation. }
  rewrite Hc. unfold with_region_counts. by rewrite Hmerged.
Qed.

Lemma merge_order_independent_witness :
  [(0, 0, 10, 10); (25, 0, 10, 10); (50, 0, 10, 10); (300, 0, 10, 10)]
  ≡ₚ [(25, 0, 10, 10); (50, 0, 10, 10); (300, 0, 10, 10)] ++ [(0, 0, 10, 10)]
  /\ exists (gs gs' : list (list rect)) (merged merged' : list rect),
    clusters (merge_test 20 30)
      (to_corners <$>
         [(0, 0, 10, 10); (25, 0, 10, 10); (50, 0, 10, 10); (300, 0, 10, 10)])
    = Some gs
    /\ merge_nearby_rectangles
         [(0, 0, 10, 10); (25, 0, 10, 10); (50, 0, 10, 10); (300, 0, 10, 10)]
         20 30 = Some merged
    /\ boxes_of gs merged
    /\ clusters (merge_test 20 30)
         (to_corners <$>
            ([(25, 0, 10, 10); (50, 0, 10, 10); (300, 0, 10, 10)]
             ++ [(0, 0, 10, 10)]))
       = Some gs'
    /\ merge_nearby_rectangles
         ([(25, 0, 10, 10); (50, 0, 10, 10); (300, 0, 10, 10)]
          ++ [(0, 0, 10, 10)]) 20 30 = Some merged'
    /\ boxes_of gs' merged'
    /\ group_summary <$> gs ≡ₚ group_summary <$> gs'
    /\ merged ≡ₚ merged'
    /\ with_region_counts
         [(0, 0, 10, 10); (25, 0, 10, 10); (50, 0, 10, 10); (300, 0, 10, 10)]
         merged
       ≡ₚ with_region_counts
            ([(25, 0, 10, 10); (50, 0, 10, 10); (300, 0, 10, 10)]
             ++ [(0, 0, 10, 10)]) merged'.
Proof.
  split; [apply Permutation_cons_append|].
  apply (merge_order_independent
           [(0, 0, 10, 10); (25, 0, 10, 10); (50, 0, 10, 10); (300, 0, 10, 10)]
           ([(25, 0, 10, 10); (50, 0, 10, 10); (300, 0, 10, 10)]
            ++ [(0, 0, 10, 10)]) 20 30).
  apply Permutation_cons_append.
Defined.

(** ** Connectivity through an intermediary *)

Lemma merge_test_to_band (h v : Z) (a b : rect) :
  -10 <= v ->
  horizontal_test h a b = merge_test h v (to_band a) (to_band b).
Proof.
  intros Hv. destruct a as [[[ax0 ay0] ax1] ay1], b as [[[bx0 by0] bx1] by1].
  unfold horizontal_test, merge_test, to_band, rectangles_should_merge. simpl.
  replace (10 <? 0 - v) with false by (symmetry; apply Z.ltb_ge; lia).
  simpl. by rewrite andb_true_r.
Qed.

(** C2, as the program has it.  The vertical threshold does enter the
    merge test of three rectangles of the same vertical extent: the test
    of line 243 compares their common height 10 with [- v].  With a
    horizontal threshold of 20 and any vertical threshold of at least
    -10, A and B pass the merge test, B and C pass it, A and C do not,
    and [merge_nearby_rectangles] still returns the single group with
    bounding box (0,0)-(60,10). *)
Theorem transitivity_via_intermediary (vertical_threshold : Z) :
  -10 <= vertical_threshold ->
  rectangles_should_merge (0, 0, 10, 10) (25, 0, 35, 10)
    20 vertical_threshold = true
  /\ rectangles_should_merge (25, 0, 35, 10) (50, 0, 60, 10)
       20 vertical_threshold = true
  /\ rectangles_should_merge (0, 0, 10, 10) (50, 0, 60, 10)
       20 vertical_threshold = false
  /\ merge_nearby_rectangles [(0, 0, 10, 10); (25, 0, 10, 10); (50, 0, 10, 10)]
       20 vertical_threshold = Some [(0, 0, 60, 10)]
  /\ to_corners (0, 0, 60, 10) = (0, 0, 60, 10).
Proof.
  intros Hv.
  split; [apply rectangles_should_merge_true; lia|].
  split; [apply rectangles_should_merge_true; lia|].
  split.
  { destruct (rectangles_should_merge _ _ _ _) eqn:Hm; [|done].
    apply rectangles_should_merge_true in Hm. lia. }
  split; [|done].
  rewrite merge_nearby_rectangles_clusters.
  change (to_corners <$> [(0, 0, 10, 10); (25, 0, 10, 10); (50, 0, 10, 10)])
    with (to_band <$> [(0, 0, 10, 10); (25, 0, 35, 10); (50, 0, 60, 10)]).
  rewrite (clusters_relabel to_band (horizontal_test 20)
             (merge_test 20 vertical_threshold))
    by (intros a b; by apply merge_test_to_band).
  reflexivity.
Qed.

Lemma transitivity_via_intermediary_witness :
  rectangles_should_merge (0, 0, 10, 10) (25, 0, 35, 10) 20 30 = true
  /\ rectangles_should_merge (25, 0, 35, 10) (50, 0, 60, 10) 20 30 = true
  /\ rectangles_should_merge (0, 0, 10, 10) (50, 0, 60, 10) 20 30 = false
  /\ merge_nearby_rectangles [(0, 0, 10, 10); (25, 0, 10, 10); (50, 0, 10, 10)]
       20 30 = Some [(0, 0, 60, 10)]
  /\ to_corners (0, 0, 60, 10) = (0, 0, 60, 10).
Proof. apply (transitivity_via_intermediary 30). lia. Defined.

(** With the vertical threshold -11 no two of the three rectangles pass
    the merge test, and [merge_nearby_rectangles] returns them as three
    boxes: the claim does not hold for any vertical threshold. *)
Lemma transitivity_via_intermediary_counterexample :
  rectangles_should_merge (0, 0, 10, 10) (25, 0, 35, 10) 20 (-11) = false
  /\ rectangles_should_merge (25, 0, 35, 10) (50, 0, 60, 10) 20 (-11) = false
  /\ merge_nearby_rectangles [(0, 0, 10, 10); (25, 0, 10, 10); (50, 0, 10, 10)]
       20 (-11)
     = Some [(0, 0, 10, 10); (25, 0, 10, 10); (50, 0, 10, 10)]
  /\ merge_nearby_rectangles [(0, 0, 10, 10); (25, 0, 10, 10); (50, 0, 10, 10)]
       20 (-11)
     <> Some [(0, 0, 60, 10)].
Proof.
  split; [reflexivity|]. split; [reflexivity|]. split; [reflexivity|].
  intros H. vm_compute in H. discriminate H.
Qed.

(** ** Padding, clamping and empty crops *)

Lemma slice_length_same (n i : Z) : slice_length n i i = 0.
Proof. unfold slice_length. lia. Qed.

Lemma region_size_zero_area (img : page_buffer) (crop : rect) :
  zero_area crop -> region_size img crop = 0.
Proof.
  destruct crop as [[[x1 y1] x2] y2]. simpl.
  intros [->| ->]; rewrite slice_length_same; lia.
Qed.




(** C8. A crop of zero area appends no record and writes no image, on
    both paths: the output is returned as it was. *)
Theorem zero_area_skipped (img : page_buffer) (page_num start_index : nat)
    (output_dir kind : string) (candidates : list rect)
    (extract_highlights extract_handwriting : bool)
    (out : output) (box : rect) (annot : annotation) :
  (zero_area (pad_group img 15 box) ->
   emit_group img page_num output_dir start_index kind candidates out box
   = out)
  /\ (zero_area (pad_corners img 10 (scaled annot)) ->
      extract_annotation img page_num output_dir extract_highlights
        extract_handwriting out annot = out).
Proof.
  split; intros Hzero.
  - unfold emit_group. by rewrite (region_size_zero_area _ _ Hzero).
  - unfold extract_annotation.
    destruct (should_extract_annotation _ _ _ _); [|done].
    by rewrite (region_size_zero_area _ _ Hzero).
Qed.

Lemma zero_area_skipped_witness :
  let img := PageBuffer 1200 900 in
  let yellow := <["stroke" := PySeq [1; 1; 0]%float]> (∅ : gmap string py_color) in
  let annot := Annotation "Highlight" yellow (910, 30, 990, 60) in
  let out := Output [] [] in
  should_extract_annotation annot "Highlight" true true = true
  /\ pad_group img 15 (20, 1215, 40, 30) = (5, 1200, 75, 1200)
  /\ pad_corners img 10 (910, 30, 990, 60) = (900, 20, 900, 70)
  /\ emit_group img 0 "out" 0 "yellow_highlight_group" [(20, 1215, 40, 30)]
       out (20, 1215, 40, 30) = out
  /\ extract_annotation img 0 "out" true true out annot = out.
Proof.
  intros img yellow annot out.
  split; [reflexivity|]. split; [reflexivity|]. split; [reflexivity|].
  pose proof (zero_area_skipped img 0 0 "out" "yellow_highlight_group"
                [(20, 1215, 40, 30)] true true out (20, 1215, 40, 30) annot)
    as [Hcolour Hmeta].
  split; [apply Hcolour|apply Hmeta]; simpl; lia.
Defined.

(** ** The colour-detection path *)

(** C3, as the program has it.  On a 900 x 1200 page with the yellow
    candidates (100,100)-(150,120) and (160,100)-(210,120), merging with
    the thresholds 100 and 50 gives one group, and the record emitted
    for it has the coordinates (85,85)-(225,135), the bounding box
    (100,100)-(210,120) padded by 15 pixels on every side, and
    [individual_regions = 2]. *)
Theorem end_to_end_scenario (page_num start_index : nat)
    (output_dir : string) (extract_handwriting : bool) :
  let img := PageBuffer 1200 900 in
  let yellow := [(100, 100, 50, 20); (160, 100, 50, 20)] in
  merge_nearby_rectangles yellow 100 50 = Some [(100, 100, 110, 20)]
  /\ exists filename,
       extract_by_color_detection img page_num output_dir start_index
         true extract_handwriting yellow []
       = Some (Output
                 [ExtractionRecord (page_num + 1) "yellow_highlight_group"
                    filename (85, 85, 225, 135) (Some 2%nat)]
                 [(path_join output_dir filename, (85, 85, 225, 135))]).
Proof.
  intros img yellow.
  assert (Hmerge : merge_nearby_rectangles yellow 100 50
                   = Some [(100, 100, 110, 20)]) by reflexivity.
  split; [done|].
  unfold extract_by_color_detection, emit_colour. rewrite Hmerge.
  eexists. destruct extract_handwriting; reflexivity.
Qed.

(** The coordinates the program emits in this scenario are not the
    (90,85)-(220,135) of the specification. *)
Lemma end_to_end_scenario_counterexample :
  exists out,
    extract_by_color_detection (PageBuffer 1200 900) 0 "out" 0 true true
      [(100, 100, 50, 20); (160, 100, 50, 20)] [] = Some out
    /\ coordinates <$> extracted_items out = [(85, 85, 225, 135)]
    /\ individual_regions <$> extracted_items out = [Some 2%nat]
    /\ coordinates <$> extracted_items out <> [(90, 85, 220, 135)].
Proof.
  eexists. split; [reflexivity|]. split; [reflexivity|].
  split; [reflexivity|]. discriminate.
Qed.

Lemma emit_group_items (img : page_buffer) (page_num start_index : nat)
    (output_dir kind : string) (candidates merged : list rect) :
  forall (out : output) (rec : extraction_record),
    rec ∈ extracted_items
            (foldl (emit_group img page_num output_dir start_index kind
                      candidates) out merged) ->
    rec ∈ extracted_items out
    \/ exists box,
         box ∈ merged
         /\ type rec = kind
         /\ coordinates rec = pad_group img 15 box
         /\ individual_regions rec = Some (count_overlapping box candidates).
Proof.
  induction merged as [|box merged IH]; intros out rec; simpl; [by left|].
  intros [Hin|(box' & Hbox' & Hrec)]%IH.
  - unfold emit_group in Hin.
    destruct (0 <? region_size img _); [|by left]. simpl in Hin.
    apply elem_of_app in Hin as [Hin|Hin]; [by left|].
    apply list_elem_of_singleton in Hin. subst rec. right.
    exists box. split; [by left|done].
  - right. exists box'. split; [by right|done].
Qed.

Lemma emit_colour_items (img : page_buffer) (page_num start_index : nat)
    (output_dir kind : string) (h v : Z) (candidates : list rect)
    (out : output) :
  exists out',
    emit_colour img page_num output_dir start_index kind h v candidates out
    = Some out'
    /\ forall rec, rec ∈ extracted_items out' ->
         rec ∈ extracted_items out
         \/ from_group_of img kind h v candidates rec.
Proof.
  destruct (merge_nearby_rectangles_outcome candidates h v)
    as (gs & merged & Hgs & Hrun & Hboxes & Hcat & _).
  unfold emit_colour. rewrite Hrun. simpl. eexists. split; [done|].
  intros rec [Hin|(box & Hbox & Hkind & Hcoord & Hcount)]%emit_group_items;
    [by left|right].
  split; [done|].
  apply list_elem_of_lookup in Hbox as (k & Hk).
  destruct (Forall2_lookup_r _ _ _ _ _ Hboxes Hk) as (g & Hg & Hbb).
  exists gs, g, box. repeat (split; [done || by eapply list_elem_of_lookup_2|]).
  split; [|done].
  intros c Hc. rewrite <- Hcat. apply elem_of_concat.
  exists g. split; [done|]. by eapply list_elem_of_lookup_2.
Qed.

(** C9. Every record of [extract_by_color_detection] belongs to one
    colour: it is either a yellow record made from a group found among
    the yellow candidates alone (with the yellow thresholds), or a red
    record made from a group found among the red candidates alone.  The
    two kinds differ, so no group holds rectangles of both. *)
Theorem category_isolation (img : page_buffer) (page_num start_index : nat)
    (output_dir : string) (extract_highlights extract_handwriting : bool)
    (yellow_rects red_rects : list rect) :
  "yellow_highlight_group" <> "red_mark_group"
  /\ exists out,
       extract_by_color_detection img page_num output_dir start_index
         extract_highlights extract_handwriting yellow_rects red_rects
       = Some out
       /\ forall rec, rec ∈ extracted_items out ->
            (extract_highlights = true
             /\ from_group_of img "yellow_highlight_group" 100 50
                  yellow_rects rec)
            \/ (extract_handwriting = true
                /\ from_group_of img "red_mark_group" 80 40 red_rects rec).
Proof.
  split; [done|]. unfold extract_by_color_detection.
  destruct extract_highlights.
  - destruct (emit_colour_items img page_num start_index output_dir
                "yellow_highlight_group" 100 50 yellow_rects (Output [] []))
      as (out1 & -> & Hyellow). simpl.
    destruct extract_handwriting.
    + destruct (emit_colour_items img page_num start_index output_dir
                  "red_mark_group" 80 40 red_rects out1)
        as (out2 & -> & Hred).
      eexists. split; [done|]. intros rec [Hin|Hin]%Hred; [|by right].
      apply Hyellow in Hin as [Hin|Hin]; [|by left].
      by apply elem_of_nil in Hin.
    + eexists. split; [done|]. intros rec [Hin|Hin]%Hyellow; [|by left].
      by apply elem_of_nil in Hin.
  - simpl. destruct extract_handwriting.
    + destruct (emit_colour_items img page_num start_index output_dir
                  "red_mark_group" 80 40 red_rects (Output [] []))
        as (out2 & -> & Hred).
      eexists. split; [done|]. intros rec [Hin|Hin]%Hred; [|by right].
      by apply elem_of_nil in Hin.
    + eexists. split; [done|]. intros rec Hin. by apply elem_of_nil in Hin.
Qed.

(** A yellow and a red candidate with the same coordinates: merged
    together they would be one group, but the page gets one yellow and
    one red record, each counting a single region. *)
Example identical_coordinates_stay_apart :
  merge_nearby_rectangles [(100, 100, 50, 20); (100, 100, 50, 20)] 100 50
  = Some [(100, 100, 50, 20)]
  /\ exists out,
       extract_by_color_detection (PageBuffer 1200 900) 0 "out" 0 true true
         [(100, 100, 50, 20)] [(100, 100, 50, 20)] = Some out
       /\ (fun rec => (type rec, coordinates rec, individual_regions rec))
            <$> extracted_items out
          = [("yellow_highlight_group", (85, 85, 165, 135), Some 1%nat);
             ("red_mark_group", (85, 85, 165, 135), Some 1%nat)]
       /\ filename <$> extracted_items out
          = ["page_1_yellow_highlight_group_1.png";
             "page_1_red_mark_group_2.png"].
Proof. split; [reflexivity|]. eexists. repeat split; reflexivity. Qed.

(** ** The colour of a native annotation *)

Lemma color_of_Some (entry : option py_color) (c : py_color) :
  color_of entry = Some c -> entry = Some c.
Proof.
  by destruct entry as [[|[|x xs]]|].
Qed.

(** C6.  The lookup of the specification against the program.  When the
    stroke entry holds a colour, both paths classify that colour, as the
    specification says.  When the stroke entry holds none (an empty
    sequence, which is how an annotation without stroke colour arrives)
    and the fill entry holds a colour, the lookup of the specification
    gives the fill colour, and the program does not: at line 151 the key
    ["stroke"] is in the dictionary, so the default of [get] is never
    taken, and line 162 has no fill fallback at all.  Both paths
    classify the empty stroke entry: a FreeText or Ink annotation with a
    red fill and a highlight with a yellow fill are not extracted. *)
Theorem annotation_color_lookup :
  (forall (colors : gmap string py_color) (c : py_color),
      color_of (colors !! "stroke") = Some c ->
      stroke_fill_black colors = c
      /\ highlight_color colors = c
      /\ ink_color colors = c)
  /\ (let red_fill :=
        <["stroke" := PySeq []]>
          (<["fill" := PySeq [1; 0; 0]%float]> (∅ : gmap string py_color)) in
      stroke_fill_black red_fill = PySeq [1; 0; 0]%float
      /\ passes reddish (stroke_fill_black red_fill) = true
      /\ ink_color red_fill = PySeq []
      /\ passes reddish (ink_color red_fill) = false
      /\ should_extract_annotation
           (Annotation "FreeText" red_fill (30, 30, 90, 60)) "FreeText"
           true true = false
      /\ should_extract_annotation
           (Annotation "Ink" red_fill (30, 30, 90, 60)) "Ink"
           true true = false)
  /\ (let yellow_fill :=
        <["stroke" := PySeq []]>
          (<["fill" := PySeq [1; 1; 0]%float]> (∅ : gmap string py_color)) in
      stroke_fill_black yellow_fill = PySeq [1; 1; 0]%float
      /\ passes yellowish (stroke_fill_black yellow_fill) = true
      /\ highlight_color yellow_fill = PySeq []
      /\ passes yellowish (highlight_color yellow_fill) = false
      /\ should_extract_annotation
           (Annotation "Highlight" yellow_fill (30, 30, 90, 60)) "Highlight"
           true true = false).
Proof.
  split.
  - intros colors c Hc. unfold stroke_fill_black, highlight_color, ink_color.
    rewrite Hc. apply color_of_Some in Hc. by rewrite Hc.
  - split; repeat split; reflexivity.
Qed.

(** * Further properties of the grouping loop *)

(** X1. The [while changed] loop ends: whatever the bound on its passes,
    as soon as the bound exceeds the number of unclaimed rectangles the
    loop has left by itself, with one and the same result.  It has then
    claimed the rectangles it absorbed and no others, and no member of
    the group passes the merge test against a rectangle left unclaimed. *)
Theorem while_loop_terminates {A : Type} (should_merge : A -> A -> bool)
    (rects group : list A) (used : list bool) :
  length used = length rects ->
  exists (absorbed : list A) (used' : list bool),
    (forall fuel : nat,
       (length (pending used rects) < fuel)%nat ->
       grow should_merge fuel rects group used
       = Some (group ++ absorbed, used'))
    /\ length used' = length used
    /\ pending used rects ≡ₚ absorbed ++ pending used' rects
    /\ closed_against should_merge (group ++ absorbed) (pending used' rects).
Proof.
  intros Hlen.
  destruct (grow_outcome should_merge (S (length (pending used rects)))
              rects group used Hlen)
    as (absorbed & used' & Hrun & Hfl & Hp & _ & Hcl); [lia|].
  exists absorbed, used'. split.
  - intros fuel Hfuel.
    apply (grow_more_fuel should_merge (S (length (pending used rects))));
      [lia|done].
  - split; [symmetry; by apply flags_grow_length|done].
Qed.

Lemma while_loop_terminates_witness :
  exists (absorbed : list rect) (used' : list bool),
    (forall fuel : nat,
       (length (pending [true; false; false; false]
                  [(0, 0, 10, 10); (25, 0, 35, 10);
                   (300, 0, 310, 10); (50, 0, 60, 10)]) < fuel)%nat ->
       grow (merge_test 20 0) fuel
         [(0, 0, 10, 10); (25, 0, 35, 10); (300, 0, 310, 10); (50, 0, 60, 10)]
         [(0, 0, 10, 10)] [true; false; false; false]
       = Some ([(0, 0, 10, 10)] ++ absorbed, used'))
    /\ length used' = length [true; false; false; false]
    /\ pending [true; false; false; false]
         [(0, 0, 10, 10); (25, 0, 35, 10); (300, 0, 310, 10); (50, 0, 60, 10)]
       ≡ₚ absorbed
          ++ pending used'
               [(0, 0, 10, 10); (25, 0, 35, 10);
                (300, 0, 310, 10); (50, 0, 60, 10)]
    /\ closed_against (merge_test 20 0) ([(0, 0, 10, 10)] ++ absorbed)
         (pending used'
            [(0, 0, 10, 10); (25, 0, 35, 10);
             (300, 0, 310, 10); (50, 0, 60, 10)]).
Proof.
  apply (while_loop_terminates (merge_test 20 0)
           [(0, 0, 10, 10); (25, 0, 35, 10); (300, 0, 310, 10); (50, 0, 60, 10)]
           [(0, 0, 10, 10)] [true; false; false; false]).
  reflexivity.
Defined.

Lemma length_concat_sum {A : Type} (gs : list (list A)) :
  length (concat gs) = sum_list (length <$> gs).
Proof.
  induction gs as [|g gs IH]; simpl; [done|].
  by rewrite length_app, IH.
Qed.

Lemma chained_length {A : Type} (R : A -> A -> bool) (g : list A) :
  chained R g -> (1 <= length g)%nat.
Proof.
  intros [r|g' a r _ _ _]; simpl; [lia|]. rewrite length_app. simpl. lia.
Qed.

(** X2. The groups split the input: every group has a member, the
    member counts add up to the number of input rectangles, so
    [merge_nearby_rectangles] never returns more rectangles than it was
    given, and it returns at least one when given any. *)
Theorem groups_partition_input (rectangles : list rect) (h v : Z) :
  exists (gs : list (list rect)) (merged : list rect),
    clusters (merge_test h v) (to_corners <$> rectangles) = Some gs
    /\ merge_nearby_rectangles rectangles h v = Some merged
    /\ boxes_of gs merged
    /\ Forall (fun g => (1 <= length g)%nat) gs
    /\ sum_list (length <$> gs) = length rectangles
    /\ (length merged <= length rectangles)%nat
    /\ (rectangles <> [] -> merged <> []).
Proof.
  destruct (merge_nearby_rectangles_outcome rectangles h v)
    as (gs & merged & Hgs & Hrun & Hboxes & Hcat & Hch & _).
  exists gs, merged. split; [done|]. split; [done|]. split; [done|].
  assert (Hone : Forall (fun g : list rect => (1 <= length g)%nat) gs).
  { eapply Forall_impl; [exact Hch|]. intros g. apply chained_length. }
  assert (Hsum : sum_list (length <$> gs) = length rectangles).
  { rewrite <- length_concat_sum, (Permutation_length Hcat).
    apply length_fmap. }
  assert (Hle : (length gs <= sum_list (length <$> gs))%nat).
  { clear -Hone. induction Hone as [|g gs Hg _ IH]; [simpl; lia|].
    rewrite fmap_cons. simpl in *. lia. }
  split; [done|]. split; [done|].
  rewrite <- (Forall2_length _ _ _ Hboxes).
  split; [lia|].
  intros Hne ->. destruct rectangles as [|r l]; [done|].
  apply Forall2_length in Hboxes. destruct gs; [|done]. simpl in Hsum. lia.
Qed.

(** X3. Two input rectangles that pass the merge test against each
    other are always covered by one and the same returned box. *)
Theorem linked_rectangles_share_a_box (rectangles : list rect) (h v : Z)
    (a b : rect) :
  a ∈ rectangles -> b ∈ rectangles ->
  rectangles_should_merge (to_corners a) (to_corners b) h v = true ->
  exists (merged : list rect) (box : rect),
    merge_nearby_rectangles rectangles h v = Some merged
    /\ box ∈ merged
    /\ inside (to_corners a) box
    /\ inside (to_corners b) box.
Proof.
  intros Ha Hb Hm.
  destruct (merge_nearby_rectangles_outcome rectangles h v)
    as (gs & merged & _ & Hrun & Hboxes & Hcat & _ & Hsep).
  assert (Hin : forall r, r ∈ rectangles ->
            exists i g, gs !! i = Some g /\ to_corners r ∈ g).
  { intros r Hr. assert (Hc : to_corners r ∈ concat gs).
    { rewrite Hcat. by apply list_elem_of_fmap_2. }
    apply elem_of_concat in Hc as (g & Hc & Hg).
    apply list_elem_of_lookup in Hg as (i & Hi). eauto. }
  destruct (Hin a Ha) as (i & ga & Hi & Hca).
  destruct (Hin b Hb) as (j & gb & Hj & Hcb).
  destruct (decide (i = j)) as [->|Hij].
  - rewrite Hi in Hj. injection Hj as <-.
    destruct (Forall2_lookup_l _ _ _ _ _ Hboxes Hi) as (box & Hbox & Hbb).
    exists merged, box. split; [done|].
    split; [by eapply list_elem_of_lookup_2|].
    destruct box as [[[x y] w] hh].
    split.
    + destruct (to_corners a) as [[[x1 y1] x2] y2]. simpl.
      by apply (bounding_box_covers ga).
    + destruct (to_corners b) as [[[x1 y1] x2] y2]. simpl.
      by apply (bounding_box_covers ga).
  - destruct (Hsep i j ga gb Hij Hi Hj _ _ Hca Hcb) as [Hno _].
    unfold merge_test in Hno. congruence.
Qed.

Lemma linked_rectangles_share_a_box_witness :
  exists (merged : list rect) (box : rect),
    merge_nearby_rectangles
      [(0, 0, 10, 10); (400, 0, 10, 10); (25, 0, 10, 10)] 20 0 = Some merged
    /\ box ∈ merged
    /\ inside (to_corners (0, 0, 10, 10)) box
    /\ inside (to_corners (25, 0, 10, 10)) box.
Proof.
  apply (linked_rectangles_share_a_box
           [(0, 0, 10, 10); (400, 0, 10, 10); (25, 0, 10, 10)] 20 0
           (0, 0, 10, 10) (25, 0, 10, 10)).
  - by left.
  - right. right. by left.
  - reflexivity.
Defined.

Lemma py_min_member (g : list rect) (f : rect -> Z) (m : Z) :
  py_min (map f g) = Some m -> exists c, c ∈ g /\ f c = m.
Proof.
  intros [Hin _]%py_min_spec.
  apply (list_elem_of_fmap f g m) in Hin as (c & -> & Hc). eauto.
Qed.

Lemma py_max_member (g : list rect) (f : rect -> Z) (m : Z) :
  py_max (map f g) = Some m -> exists c, c ∈ g /\ f c = m.
Proof.
  intros [Hin _]%py_max_spec.
  apply (list_elem_of_fmap f g m) in Hin as (c & -> & Hc). eauto.
Qed.

(** Each edge of a bounding box is the matching edge of a member. *)
Lemma bounding_box_attained (g : list rect) (box : rect) :
  bounding_box g = Some box ->
  (exists c, c ∈ g /\ c.1.1.1 = left_edge box)
  /\ (exists c, c ∈ g /\ c.1.1.2 = top_edge box)
  /\ (exists c, c ∈ g /\ c.1.2 = right_edge box)
  /\ (exists c, c ∈ g /\ c.2 = bottom_edge box).
Proof.
  unfold bounding_box. intros Hbox.
  apply bind_Some in Hbox as (min_x & Hminx & Hbox).
  apply bind_Some in Hbox as (min_y & Hminy & Hbox).
  apply bind_Some in Hbox as (max_x & Hmaxx & Hbox).
  apply bind_Some in Hbox as (max_y & Hmaxy & Hbox).
  injection Hbox as <-.
  unfold left_edge, top_edge, right_edge, bottom_edge. simpl.
  apply py_min_member in Hminx as (a & Ha & <-), Hminy as (b & Hb & <-).
  apply py_max_member in Hmaxx as (c & Hc & <-), Hmaxy as (d & Hd & <-).
  repeat split; [exists a|exists b|exists c|exists d]; split; auto; lia.
Qed.


(** ** Thresholds, translations and the overlap count *)

Lemma chained_mono {A : Type} (R R' : A -> A -> bool) (g : list A) :
  (forall a b, R a b = true -> R' a b = true) ->
  chained R g -> chained R' g.
Proof.
  intros Hmono. induction 1 as [r|g a r _ IH Ha Hm]; [constructor|].
  apply chained_absorb with a; auto.
Qed.

Lemma merge_test_mono (h v h' v' : Z) (a b : rect) :
  h <= h' -> v <= v' ->
  merge_test h v a b = true -> merge_test h' v' a b = true.
Proof.
  intros Hh Hv. unfold merge_test.
  destruct a as [[[ax0 ay0] ax1] ay1], b as [[[bx0 by0] bx1] by1].
  rewrite !rectangles_should_merge_true. lia.
Qed.

(** A group whose members all belong to another group has its bounding
    box inside the bounding box of that group. *)
Lemma bounding_box_subset (g g' : list rect) (box box' : rect) :
  (forall c, c ∈ g -> c ∈ g') ->
  bounding_box g = Some box -> bounding_box g' = Some box' ->
  inside (to_corners box) box'.
Proof.
  intros Hsub Hbox Hbox'.
  destruct (bounding_box_attained g box Hbox)
    as ((a & Ha & Hl) & (b & Hb & Ht) & (c & Hc & Hr) & (d & Hd & Hbt)).
  destruct box' as [[[x y] w] hh].
  destruct a as [[[a1 a2] a3] a4], b as [[[b1 b2] b3] b4],
    c as [[[c1 c2] c3] c4], d as [[[d1 d2] d3] d4].
  pose proof (bounding_box_covers g' _ _ _ _ _ _ _ _ Hbox' (Hsub _ Ha)).
  pose proof (bounding_box_covers g' _ _ _ _ _ _ _ _ Hbox' (Hsub _ Hb)).
  pose proof (bounding_box_covers g' _ _ _ _ _ _ _ _ Hbox' (Hsub _ Hc)).
  pose proof (bounding_box_covers g' _ _ _ _ _ _ _ _ Hbox' (Hsub _ Hd)).
  destruct box as [[[bx by_] bw] bh].
  unfold left_edge, top_edge, right_edge, bottom_edge in *. simpl in *. lia.
Qed.

(** X5. Raising the thresholds only coarsens the grouping: every box
    returned at the thresholds [(h, v)] lies inside a box returned for
    the same rectangles at any thresholds [(h', v')] that are at least
    as large. *)
Theorem larger_thresholds_coarsen (rectangles : list rect) (h v h' v' : Z) :
  h <= h' -> v <= v' ->
  exists merged merged',
    merge_nearby_rectangles rectangles h v = Some merged
    /\ merge_nearby_rectangles rectangles h' v' = Some merged'
    /\ forall box, box ∈ merged ->
         exists box', box' ∈ merged' /\ inside (to_corners box) box'.
Proof.
  intros Hh Hv.
  destruct (merge_nearby_rectangles_outcome rectangles h v)
    as (gs & merged & _ & Hrun & Hboxes & Hcat & Hch & _).
  destruct (merge_nearby_rectangles_outcome rectangles h' v')
    as (gs' & merged' & _ & Hrun' & Hboxes' & Hcat' & _ & Hsep').
  exists merged, merged'. split; [done|]. split; [done|].
  intros box Hbox. apply list_elem_of_lookup in Hbox as (k & Hk).
  destruct (Forall2_lookup_r _ _ _ _ _ Hboxes Hk) as (g & Hg & Hbb).
  assert (Hgin : g ∈ gs) by (by eapply list_elem_of_lookup_2).
  assert (Hg' : chained (merge_test h' v') g).
  { apply (chained_mono (merge_test h v)).
    - intros a b. by apply merge_test_mono.
    - rewrite Forall_forall in Hch. by apply Hch. }
  assert (Hall : forall c, c ∈ g -> c ∈ concat gs').
  { intros c Hc. rewrite Hcat', <- Hcat. apply elem_of_concat. eauto. }
  destruct (chained_nonempty _ _ Hg') as (r & Hr).
  pose proof (Hall r Hr) as Hrc.
  apply elem_of_concat in Hrc as (g' & Hr' & Hgin').
  apply list_elem_of_lookup in Hgin' as (i & Hi).
  destruct (Forall2_lookup_l _ _ _ _ _ Hboxes' Hi) as (box' & Hbox' & Hbb').
  exists box'. split; [by eapply list_elem_of_lookup_2|].
  apply (bounding_box_subset g g'); auto.
  apply (chained_stays_inside (merge_test h' v') (fun c => c ∈ g')); eauto.
  - intros c. destruct (decide (c ∈ g')); auto.
  - intros a b Ha Hb Hag' Hbg'.
    pose proof (Hall b Hb) as Hbc.
    apply elem_of_concat in Hbc as (g2 & Hb2 & Hg2).
    apply list_elem_of_lookup in Hg2 as (j & Hj).
    destruct (decide (i = j)) as [->|Hij]; [congruence|].
    by apply (Hsep' i j g' g2).
Qed.

Lemma larger_thresholds_coarsen_witness :
  exists merged merged',
    merge_nearby_rectangles
      [(0, 0, 10, 10); (25, 0, 10, 10); (80, 0, 10, 10)] 20 0 = Some merged
    /\ merge_nearby_rectangles
         [(0, 0, 10, 10); (25, 0, 10, 10); (80, 0, 10, 10)] 50 5
       = Some merged'
    /\ forall box, box ∈ merged ->
         exists box', box' ∈ merged' /\ inside (to_corners box) box'.
Proof.
  apply (larger_thresholds_coarsen
           [(0, 0, 10, 10); (25, 0, 10, 10); (80, 0, 10, 10)] 20 0 50 5); lia.
Defined.

(** ** Moving all rectangles by the same offset *)

Lemma to_corners_translate (dx dy : Z) (r : rect) :
  to_corners (translate dx dy r) = translate_corners dx dy (to_corners r).
Proof. destruct r as [[[x y] w] h]. simpl. f_equal; [f_equal|]; lia. Qed.

Lemma merge_test_translate (h v dx dy : Z) (a b : rect) :
  merge_test h v a b
  = merge_test h v (translate_corners dx dy a) (translate_corners dx dy b).
Proof.
  destruct a as [[[ax0 ay0] ax1] ay1], b as [[[bx0 by0] bx1] by1].
  apply eq_true_iff_eq. unfold merge_test, translate_corners.
  rewrite !rectangles_should_merge_true. lia.
Qed.

Lemma py_min_add (d : Z) (l : list Z) :
  py_min ((fun z => z + d) <$> l) = (fun z => z + d) <$> py_min l.
Proof.
  destruct l as [|x xs]; [done|]. rewrite fmap_cons. simpl. f_equal.
  revert x. induction xs as [|y xs IH]; intros x; [done|].
  rewrite fmap_cons. simpl. rewrite Z.add_min_distr_r. apply IH.
Qed.

Lemma py_max_add (d : Z) (l : list Z) :
  py_max ((fun z => z + d) <$> l) = (fun z => z + d) <$> py_max l.
Proof.
  destruct l as [|x xs]; [done|]. rewrite fmap_cons. simpl. f_equal.
  revert x. induction xs as [|y xs IH]; intros x; [done|].
  rewrite fmap_cons. simpl. rewrite Z.add_max_distr_r. apply IH.
Qed.

Lemma map_translate_corners (f : rect -> Z) (d dx dy : Z) (g : list rect) :
  (forall r, f (translate_corners dx dy r) = f r + d) ->
  map f (translate_corners dx dy <$> g) = (fun z => z + d) <$> map f g.
Proof.
  intros Hf. induction g as [|r g IH]; [done|].
  rewrite fmap_cons. simpl. rewrite ?fmap_cons. by rewrite Hf, IH.
Qed.

Lemma bounding_box_translate (dx dy : Z) (g : list rect) :
  bounding_box (translate_corners dx dy <$> g)
  = translate dx dy <$> bounding_box g.
Proof.
  unfold bounding_box.
  rewrite (map_translate_corners (fun r => r.1.1.1) dx dx dy),
    (map_translate_corners (fun r => r.1.1.2) dy dx dy),
    (map_translate_corners (fun r => r.1.2) dx dx dy),
    (map_translate_corners (fun r => r.2) dy dx dy)
    by (by intros [[[? ?] ?] ?]).
  rewrite !py_min_add, !py_max_add.
  destruct (py_min (map (fun r : rect => r.1.1.1) g)) as [min_x|]; [|done].
  destruct (py_min (map (fun r : rect => r.1.1.2) g)) as [min_y|]; [|done].
  destruct (py_max (map (fun r : rect => r.1.2) g)) as [max_x|]; [|done].
  destruct (py_max (map (fun r : rect => r.2) g)) as [max_y|]; [|done].
  simpl. do 2 f_equal; [f_equal|]; lia.
Qed.

Lemma mapM_bounding_box_translate (dx dy : Z) (gs : list (list rect)) :
  mapM bounding_box (fmap (M:=list) (translate_corners dx dy) <$> gs)
  = fmap (M:=list) (translate dx dy) <$> mapM bounding_box gs.
Proof.
  induction gs as [|g gs IH]; [done|].
  rewrite fmap_cons. simpl. rewrite bounding_box_translate, IH.
  destruct (bounding_box g) as [box|]; [|done]. simpl.
  by destruct (mapM bounding_box gs).
Qed.

(** X6. Grouping does not depend on where the rectangles are, only on
    how they lie relative to each other: moving every input rectangle by
    [(dx, dy)] moves every returned box by [(dx, dy)] and changes
    nothing else. *)
Theorem merge_translation (rectangles : list rect) (h v dx dy : Z) :
  merge_nearby_rectangles (translate dx dy <$> rectangles) h v
  = fmap (M:=list) (translate dx dy)
    <$> merge_nearby_rectangles rectangles h v.
Proof.
  rewrite !merge_nearby_rectangles_clusters.
  rewrite <- list_fmap_compose.
  rewrite (list_fmap_ext (to_corners ∘ translate dx dy)
             (translate_corners dx dy ∘ to_corners) rectangles)
    by (intros i r _; apply to_corners_translate).
  rewrite list_fmap_compose.
  rewrite (clusters_relabel (translate_corners dx dy) (merge_test h v)
             (merge_test h v))
    by (intros a b; apply merge_test_translate).
  destruct (clusters (merge_test h v) (to_corners <$> rectangles)) as [gs|];
    [|done].
  simpl. apply mapM_bounding_box_translate.
Qed.

(** ** The overlap count *)

Lemma rectangles_overlap_true (x1 y1 w1 h1 x2 y2 w2 h2 : Z) :
  rectangles_overlap (x1, y1, w1, h1) (x2, y2, w2, h2) = true
  <-> (x2 <= x1 + w1 /\ x1 <= x2 + w2) /\ (y2 <= y1 + h1 /\ y1 <= y2 + h2).
Proof.
  unfold rectangles_overlap.
  rewrite negb_true_iff, !orb_false_iff, !Z.ltb_ge. lia.
Qed.

Lemma rectangles_overlap_corners (a b : rect) :
  rectangles_overlap a b
  = rectangles_should_merge (to_corners a) (to_corners b) 0 0.
Proof.
  destruct a as [[[x1 y1] w1] h1], b as [[[x2 y2] w2] h2].
  apply eq_true_iff_eq. rewrite rectangles_overlap_true. unfold to_corners.
  rewrite rectangles_should_merge_true. lia.
Qed.

(** X7. [rectangles_overlap] on [(x, y, w, h)] tuples is the merge test
    with both thresholds 0 on the corner forms, and it is symmetric. *)
Theorem rectangles_overlap_is_merge_at_zero (a b : rect) :
  rectangles_overlap a b
  = rectangles_should_merge (to_corners a) (to_corners b) 0 0
  /\ rectangles_overlap a b = rectangles_overlap b a.
Proof.
  split; [apply rectangles_overlap_corners|].
  rewrite !rectangles_overlap_corners. apply rectangles_should_merge_sym.
Qed.

Lemma length_filter_fmap {A B : Type} (f : A -> B) (P : B -> Prop)
    `{forall y, Decision (P y)} (l : list A) :
  length (filter P (f <$> l)) = length (filter (fun x => P (f x)) l).
Proof.
  induction l as [|x l IH]; [done|]. rewrite fmap_cons, !filter_cons.
  destruct (decide (P (f x))); simpl; by rewrite IH.
Qed.

Lemma filter_all {A : Type} (P : A -> Prop) `{forall y, Decision (P y)}
    (l : list A) :
  Forall P l -> filter P l = l.
Proof.
  induction 1 as [|x l Hx _ IH]; [done|].
  by rewrite filter_cons_True, IH.
Qed.

(** X8. For candidates whose width and height are not negative, the
    [individual_regions] value computed for a group, the number of
    candidates that overlap its bounding box, is never smaller than the
    number of members of the group, and so never smaller than 1. *)
Theorem individual_regions_never_undercount (candidates : list rect)
    (h v : Z) :
  Forall sized candidates ->
  exists (gs : list (list rect)) (merged : list rect),
    clusters (merge_test h v) (to_corners <$> candidates) = Some gs
    /\ merge_nearby_rectangles candidates h v = Some merged
    /\ Forall2 (fun g box =>
                  bounding_box g = Some box
                  /\ (1 <= length g <= count_overlapping box candidates)%nat)
         gs merged.
Proof.
  intros Hsized.
  destruct (merge_nearby_rectangles_outcome candidates h v)
    as (gs & merged & Hgs & Hrun & Hboxes & Hcat & Hch & _).
  exists gs, merged. split; [done|]. split; [done|].
  apply Forall2_same_length_lookup. split; [by eapply Forall2_length|].
  intros i g box Hg Hbox.
  destruct (Forall2_lookup_l _ _ _ _ _ Hboxes Hg) as (box0 & Hbox0 & Hbb).
  rewrite Hbox in Hbox0. injection Hbox0 as <-.
  split; [done|]. split.
  { rewrite Forall_forall in Hch. eapply chained_length, Hch.
    by eapply list_elem_of_lookup_2. }
  set (P := fun c : rect =>
              rectangles_should_merge (to_corners box) c 0 0 = true).
  assert (Hcount : count_overlapping box candidates
                   = length (filter P (to_corners <$> candidates))).
  { unfold count_overlapping. rewrite length_filter_fmap.
    f_equal. apply list_filter_iff. intros r. unfold P.
    by rewrite (rectangles_overlap_corners box r). }
  assert (Hmem : Forall P g).
  { apply Forall_forall. intros c Hc.
    assert (Hcc : c ∈ to_corners <$> candidates).
    { rewrite <- Hcat. apply elem_of_concat. exists g. split; [done|].
      by eapply list_elem_of_lookup_2. }
    apply list_elem_of_fmap in Hcc as (r & -> & Hr).
    rewrite Forall_forall in Hsized. specialize (Hsized r Hr).
    destruct box as [[[x y] w] hh], r as [[[rx ry] rw] rh].
    pose proof (bounding_box_covers g x y w hh _ _ _ _ Hbb Hc) as Hcov.
    unfold P. simpl in *. apply rectangles_should_merge_true. lia. }
  apply list_elem_of_lookup_2, elem_of_Permutation in Hg as (gs1 & Hperm).
  rewrite Hcount, <- Hcat, (concat_Permutation _ _ Hperm). simpl.
  rewrite filter_app, length_app, (filter_all P g Hmem). lia.
Qed.

Lemma individual_regions_never_undercount_witness :
  exists (gs : list (list rect)) (merged : list rect),
    clusters (merge_test 100 50)
      (to_corners <$> [(100, 100, 50, 20); (160, 100, 50, 20)]) = Some gs
    /\ merge_nearby_rectangles [(100, 100, 50, 20); (160, 100, 50, 20)]
         100 50 = Some merged
    /\ Forall2 (fun g box =>
                  bounding_box g = Some box
                  /\ (1 <= length g
                      <= count_overlapping box
                           [(100, 100, 50, 20); (160, 100, 50, 20)]%Z)%nat)
         gs merged.
Proof.
  apply (individual_regions_never_undercount
           [(100, 100, 50, 20); (160, 100, 50, 20)] 100 50).
  repeat constructor; simpl; lia.
Defined.

(** * Further properties of the extraction *)

(** ** Groups that lie on the page *)

Lemma slice_length_inside (n a b : Z) :
  0 <= a -> a <= b -> b <= n -> slice_length n a b = b - a.
Proof.
  intros Ha Hab Hb. unfold slice_length, slice_bound.
  destruct (Z.ltb_spec b 0), (Z.ltb_spec a 0); lia.
Qed.

Lemma pad_group_on_page (img : page_buffer) (x y w h : Z) :
  on_page img (x, y, w, h) ->
  exists cx1 cy1 cx2 cy2,
    pad_group img 15 (x, y, w, h) = (cx1, cy1, cx2, cy2)
    /\ 0 <= cx1 <= x /\ 0 <= cy1 <= y
    /\ x + w <= cx2 <= cols img /\ y + h <= cy2 <= rows img.
Proof.
  intros (Hx & Hy & Hw & Hh & Hc & Hr). simpl.
  eexists _, _, _, _. split; [reflexivity|]. lia.
Qed.

Lemma region_size_on_page (img : page_buffer) (box : rect) :
  on_page img box -> 0 < region_size img (pad_group img 15 box).
Proof.
  destruct box as [[[x y] w] h]. intros Hon.
  pose proof Hon as (Hx & Hy & Hw & Hh & Hc & Hr).
  destruct (pad_group_on_page img x y w h Hon)
    as (cx1 & cy1 & cx2 & cy2 & -> & H1 & H2 & H3 & H4).
  unfold region_size. rewrite !slice_length_inside by lia.
  apply Z.mul_pos_pos; [apply Z.mul_pos_pos|]; lia.
Qed.

Lemma emit_group_on_page (img : page_buffer) (page_num start_index : nat)
    (output_dir kind : string) (candidates : list rect) (out : output)
    (box : rect) :
  on_page img box ->
  exists name,
    emit_group img page_num output_dir start_index kind candidates out box
    = Output
        (extracted_items out ++
           [ExtractionRecord (page_num + 1) kind name
              (pad_group img 15 box)
              (Some (count_overlapping box candidates))])
        (written out ++ [(path_join output_dir name, pad_group img 15 box)]).
Proof.
  intros Hsize%region_size_on_page. unfold emit_group.
  apply Z.ltb_lt in Hsize. rewrite Hsize. eexists. reflexivity.
Qed.

(** X9. A group whose bounding box has at least one pixel and lies on
    the page is never skipped: [emit_group] appends exactly one record
    and writes exactly one file for it, and the crop recorded lies on
    the page and contains the whole bounding box. *)
Theorem on_page_group_is_emitted (img : page_buffer) (page_num start_index : nat)
    (output_dir kind : string) (candidates : list rect) (out : output)
    (box : rect) :
  on_page img box ->
  exists cx1 cy1 cx2 cy2 name,
    pad_group img 15 box = (cx1, cy1, cx2, cy2)
    /\ name = file_name (page_num + 1) kind
                (start_index + length (extracted_items out) + 1)
    /\ emit_group img page_num output_dir start_index kind candidates out box
       = Output
           (extracted_items out ++
              [ExtractionRecord (page_num + 1) kind name (cx1, cy1, cx2, cy2)
                 (Some (count_overlapping box candidates))])
           (written out ++ [(path_join output_dir name, (cx1, cy1, cx2, cy2))])
    /\ 0 <= cx1 <= left_edge box /\ 0 <= cy1 <= top_edge box
    /\ right_edge box <= cx2 <= cols img
    /\ bottom_edge box <= cy2 <= rows img.
Proof.
  intros Hon. pose proof (region_size_on_page img box Hon) as Hsize.
  destruct box as [[[x y] w] h].
  destruct (pad_group_on_page img x y w h Hon)
    as (cx1 & cy1 & cx2 & cy2 & Hpad & Hbounds).
  exists cx1, cy1, cx2, cy2. eexists. split; [done|]. split; [reflexivity|].
  split; [|exact Hbounds].
  unfold emit_group. apply Z.ltb_lt in Hsize. rewrite Hsize, Hpad.
  reflexivity.
Qed.

Lemma on_page_group_is_emitted_witness :
  exists cx1 cy1 cx2 cy2 name,
    pad_group (PageBuffer 1200 900) 15 (880, 5, 20, 40) = (cx1, cy1, cx2, cy2)
    /\ name = file_name (2 + 1) "red_mark_group"
                (4 + length (extracted_items (Output [] [])) + 1)
    /\ emit_group (PageBuffer 1200 900) 2 "out" 4 "red_mark_group"
         [(880, 5, 20, 40)] (Output [] []) (880, 5, 20, 40)
       = Output
           (extracted_items (Output [] []) ++
              [ExtractionRecord (2 + 1) "red_mark_group" name
                 (cx1, cy1, cx2, cy2)
                 (Some (count_overlapping (880, 5, 20, 40)
                          [(880, 5, 20, 40)]))])
           (written (Output [] [])
              ++ [(path_join "out" name, (cx1, cy1, cx2, cy2))])
    /\ 0 <= cx1 <= left_edge (880, 5, 20, 40)
    /\ 0 <= cy1 <= top_edge (880, 5, 20, 40)
    /\ right_edge (880, 5, 20, 40) <= cx2 <= cols (PageBuffer 1200 900)
    /\ bottom_edge (880, 5, 20, 40) <= cy2 <= rows (PageBuffer 1200 900).
Proof.
  apply (on_page_group_is_emitted (PageBuffer 1200 900) 2 4 "out"
           "red_mark_group" [(880, 5, 20, 40)] (Output [] []) (880, 5, 20, 40)).
  simpl. lia.
Defined.

Lemma bounding_box_on_page (img : page_buffer) (g : list rect) (box : rect) :
  (forall c, c ∈ g -> exists r, on_page img r /\ to_corners r = c) ->
  bounding_box g = Some box -> on_page img box.
Proof.
  intros Hmem Hbox.
  destruct (bounding_box_attained g box Hbox)
    as ((a & Ha & Hl) & (b & Hb & Ht) & (c & Hc & Hr) & (d & Hd & Hbt)).
  destruct box as [[[x y] w] h].
  unfold left_edge, top_edge, right_edge, bottom_edge in *. simpl in *.
  destruct (Hmem a Ha) as ([[[ax ay] aw] ah] & Hona & <-).
  destruct (Hmem b Hb) as ([[[bx by_] bw] bh] & Honb & <-).
  destruct (Hmem c Hc) as ([[[cx cy] cw] ch] & Honc & <-).
  destruct (Hmem d Hd) as ([[[dx dy] dw] dh] & Hond & <-).
  pose proof (bounding_box_covers g x y w h _ _ _ _ Hbox Ha).
  pose proof (bounding_box_covers g x y w h _ _ _ _ Hbox Hb).
  simpl in *. lia.
Qed.

Lemma merged_on_page (img : page_buffer) (candidates merged : list rect)
    (h v : Z) :
  Forall (on_page img) candidates ->
  merge_nearby_rectangles candidates h v = Some merged ->
  Forall (on_page img) merged.
Proof.
  intros Hon Hrun.
  destruct (merge_nearby_rectangles_outcome candidates h v)
    as (gs & merged' & _ & Hrun' & Hboxes & Hcat & _).
  rewrite Hrun in Hrun'. injection Hrun' as <-.
  apply Forall_forall. intros box Hbox.
  apply list_elem_of_lookup in Hbox as (k & Hk).
  destruct (Forall2_lookup_r _ _ _ _ _ Hboxes Hk) as (g & Hg & Hbb).
  apply (bounding_box_on_page img g); [|done].
  intros c Hc. assert (Hcc : c ∈ concat gs).
  { apply elem_of_concat. exists g. split; [done|].
    by eapply list_elem_of_lookup_2. }
  rewrite Hcat in Hcc. apply list_elem_of_fmap in Hcc as (r & -> & Hr).
  exists r. split; [|done]. rewrite Forall_forall in Hon. by apply Hon.
Qed.

Lemma emit_groups_on_page (img : page_buffer) (page_num start_index : nat)
    (output_dir kind : string) (candidates merged : list rect) :
  Forall (on_page img) merged ->
  forall out,
    (fun rec => (type rec, coordinates rec))
      <$> extracted_items
            (foldl (emit_group img page_num output_dir start_index kind
                      candidates) out merged)
    = ((fun rec => (type rec, coordinates rec)) <$> extracted_items out)
      ++ ((fun box => (kind, pad_group img 15 box)) <$> merged).
Proof.
  induction 1 as [|box merged Hbox _ IH]; intros out; simpl.
  - by rewrite app_nil_r.
  - rewrite IH.
    destruct (emit_group_on_page img page_num start_index
                output_dir kind candidates out box Hbox) as (name & ->).
    simpl. rewrite fmap_app, <- app_assoc. done.
Qed.

(** X10. When every colour candidate has at least one pixel and lies on
    the page, [extract_by_color_detection] with both settings on emits
    exactly one record per merged group, none skipped: first the yellow
    groups in the order [merge_nearby_rectangles] returns them, then the
    red groups, each with its bounding box padded by 15 pixels. *)
Theorem one_record_per_group (img : page_buffer) (page_num start_index : nat)
    (output_dir : string) (yellow_rects red_rects : list rect) :
  Forall (on_page img) yellow_rects ->
  Forall (on_page img) red_rects ->
  exists merged_yellow merged_red out,
    merge_nearby_rectangles yellow_rects 100 50 = Some merged_yellow
    /\ merge_nearby_rectangles red_rects 80 40 = Some merged_red
    /\ extract_by_color_detection img page_num output_dir start_index
         true true yellow_rects red_rects = Some out
    /\ (fun rec => (type rec, coordinates rec)) <$> extracted_items out
       = ((fun box => ("yellow_highlight_group", pad_group img 15 box))
            <$> merged_yellow)
         ++ ((fun box => ("red_mark_group", pad_group img 15 box))
               <$> merged_red).
Proof.
  intros Hyellow Hred.
  destruct (merge_nearby_rectangles_total yellow_rects 100 50)
    as (merged_yellow & Hy).
  destruct (merge_nearby_rectangles_total red_rects 80 40)
    as (merged_red & Hr).
  exists merged_yellow, merged_red. eexists.
  split; [done|]. split; [done|].
  unfold extract_by_color_detection, emit_colour. rewrite Hy. simpl.
  rewrite Hr. simpl. split; [reflexivity|].
  rewrite emit_groups_on_page
    by apply (merged_on_page img red_rects merged_red 80 40 Hred Hr).
  rewrite emit_groups_on_page
    by apply (merged_on_page img yellow_rects merged_yellow 100 50 Hyellow Hy).
  reflexivity.
Qed.

Lemma one_record_per_group_witness :
  exists merged_yellow merged_red out,
    merge_nearby_rectangles [(100, 100, 50, 20); (160, 100, 50, 20)] 100 50
    = Some merged_yellow
    /\ merge_nearby_rectangles [(100, 100, 50, 20)] 80 40 = Some merged_red
    /\ extract_by_color_detection (PageBuffer 1200 900) 0 "out" 0
         true true [(100, 100, 50, 20); (160, 100, 50, 20)]
         [(100, 100, 50, 20)] = Some out
    /\ (fun rec => (type rec, coordinates rec)) <$> extracted_items out
       = ((fun box =>
             ("yellow_highlight_group",
              pad_group (PageBuffer 1200 900) 15 box)) <$> merged_yellow)
         ++ ((fun box =>
                ("red_mark_group",
                 pad_group (PageBuffer 1200 900) 15 box)) <$> merged_red).
Proof.
  apply (one_record_per_group (PageBuffer 1200 900) 0 0 "out"
           [(100, 100, 50, 20); (160, 100, 50, 20)] [(100, 100, 50, 20)]);
    repeat constructor; simpl; lia.
Defined.

(** ** The records of a whole document *)

Section Appending.
Variable output_dir : string.




End Appending.


Section OnePage.
Variable img : page_buffer.
Variable page_num : nat.
Variable output_dir : string.





End OnePage.

Section Document.
Variable output_dir : string.
Variables extract_highlights extract_handwriting : bool.



End Document.











(** ** File names never repeat *)












(** ** Native annotations at the edge of the page *)

Lemma slice_length_wraps (n b : Z) :
  b < 0 -> 0 < n + b -> slice_length n 0 b = n + b.
Proof.
  intros Hb Hn. unfold slice_length, slice_bound.
  destruct (Z.ltb_spec b 0), (Z.ltb_spec 0 0); lia.
Qed.

Lemma extract_annotation_sized (img : page_buffer) (page_num : nat)
    (output_dir : string) (extract_highlights extract_handwriting : bool)
    (out : output) (annot : annotation) :
  should_extract_annotation annot (annot_type annot)
    extract_highlights extract_handwriting = true ->
  0 < region_size img (pad_corners img 10 (scaled annot)) ->
  extract_annotation img page_num output_dir extract_highlights
    extract_handwriting out annot
  = let name := file_name (page_num + 1) (annot_type annot)
                  (length (extracted_items out) + 1) in
    let crop := pad_corners img 10 (scaled annot) in
    Output
      (extracted_items out
         ++ [ExtractionRecord (page_num + 1) (annot_type annot) name crop None])
      (written out ++ [(path_join output_dir name, crop)]).
Proof.
  intros Hshould Hsize. unfold extract_annotation.
  rewrite Hshould. apply Z.ltb_lt in Hsize. rewrite Hsize. reflexivity.
Qed.

(** X16. A native annotation that passes the type and colour test and
    whose rectangle comes within the 10 pixel padding of a non-empty
    page is never skipped, even when the rectangle itself is a line or a
    point: [extract_annotation] appends exactly one record and writes
    exactly one file, and the crop lies on the page. *)
Theorem annotation_near_page_is_extracted (img : page_buffer) (page_num : nat)
    (output_dir : string) (extract_highlights extract_handwriting : bool)
    (out : output) (annot : annotation) (x1 y1 x2 y2 : Z) :
  should_extract_annotation annot (annot_type annot)
    extract_highlights extract_handwriting = true ->
  scaled annot = (x1, y1, x2, y2) ->
  x1 <= x2 -> y1 <= y2 ->
  -10 < x2 -> -10 < y2 -> x1 < cols img + 10 -> y1 < rows img + 10 ->
  0 < cols img -> 0 < rows img ->
  exists cx1 cy1 cx2 cy2 name,
    name = file_name (page_num + 1) (annot_type annot)
             (length (extracted_items out) + 1)
    /\ extract_annotation img page_num output_dir extract_highlights
         extract_handwriting out annot
       = Output
           (extracted_items out
              ++ [ExtractionRecord (page_num + 1) (annot_type annot) name
                    (cx1, cy1, cx2, cy2) None])
           (written out ++ [(path_join output_dir name, (cx1, cy1, cx2, cy2))])
    /\ 0 <= cx1 < cx2 /\ cx2 <= cols img
    /\ 0 <= cy1 < cy2 /\ cy2 <= rows img
    /\ region_size img (cx1, cy1, cx2, cy2) = (cy2 - cy1) * (cx2 - cx1) * 3.
Proof.
  intros Hshould Hrect Hx Hy Hx2 Hy2 Hx1 Hy1 Hc Hr.
  exists (Z.max 0 (x1 - 10)), (Z.max 0 (y1 - 10)),
         (Z.min (cols img) (x2 + 10)), (Z.min (rows img) (y2 + 10)).
  eexists. split; [reflexivity|].
  assert (Hsize :
            region_size img (pad_corners img 10 (scaled annot))
            = (Z.min (rows img) (y2 + 10) - Z.max 0 (y1 - 10))
              * (Z.min (cols img) (x2 + 10) - Z.max 0 (x1 - 10)) * 3).
  { rewrite Hrect. unfold pad_corners, region_size.
    rewrite !slice_length_inside by lia. reflexivity. }
  split.
  - rewrite extract_annotation_sized; [by rewrite Hrect|done|].
    rewrite Hsize. apply Z.mul_pos_pos; [apply Z.mul_pos_pos|]; lia.
  - rewrite Hrect in Hsize. unfold pad_corners in Hsize.
    split; [lia|]. split; [lia|]. split; [lia|]. split; [lia|]. exact Hsize.
Qed.

Lemma annotation_near_page_is_extracted_witness :
  let yellow_stroke :=
    <["stroke" := PySeq [1; 1; 0]%float]> (∅ : gmap string py_color) in
  let annot := Annotation "Underline" yellow_stroke (300, 450, 600, 450) in
  let img := PageBuffer 1200 900 in
  exists cx1 cy1 cx2 cy2 name,
    name = file_name (0 + 1) (annot_type annot)
             (length (extracted_items (Output [] [])) + 1)
    /\ extract_annotation img 0 "out" true true (Output [] []) annot
       = Output
           (extracted_items (Output [] [])
              ++ [ExtractionRecord (0 + 1) (annot_type annot) name
                    (cx1, cy1, cx2, cy2) None])
           (written (Output [] [])
              ++ [(path_join "out" name, (cx1, cy1, cx2, cy2))])
    /\ 0 <= cx1 < cx2 /\ cx2 <= cols img
    /\ 0 <= cy1 < cy2 /\ cy2 <= rows img
    /\ region_size img (cx1, cy1, cx2, cy2) = (cy2 - cy1) * (cx2 - cx1) * 3.
Proof.
  intros yellow_stroke annot img.
  apply (annotation_near_page_is_extracted img 0 "out" true true
           (Output [] []) annot 300 450 600 450);
    try reflexivity; simpl; lia.
Defined.

(** X17. A native annotation that passes the test and lies to the left
    of the page by more than the padding is still extracted: the right
    end [x2 + 10] of its crop is negative, numpy counts it from the right
    edge of the image, and the region cut out is the part of the page
    left of column [cols + x2 + 10], to which the annotation does not
    belong.  The record keeps the negative coordinate. *)
Theorem annotation_left_of_page_wraps (img : page_buffer) (page_num : nat)
    (output_dir : string) (extract_highlights extract_handwriting : bool)
    (out : output) (annot : annotation) (x1 y1 x2 y2 : Z) :
  should_extract_annotation annot (annot_type annot)
    extract_highlights extract_handwriting = true ->
  scaled annot = (x1, y1, x2, y2) ->
  x1 <= x2 -> x2 + 10 < 0 -> 0 < cols img + (x2 + 10) ->
  0 <= y1 -> y1 <= y2 -> y2 <= rows img -> 0 < rows img ->
  exists cy1 cy2 name,
    name = file_name (page_num + 1) (annot_type annot)
             (length (extracted_items out) + 1)
    /\ extract_annotation img page_num output_dir extract_highlights
         extract_handwriting out annot
       = Output
           (extracted_items out
              ++ [ExtractionRecord (page_num + 1) (annot_type annot) name
                    (0, cy1, x2 + 10, cy2) None])
           (written out ++ [(path_join output_dir name, (0, cy1, x2 + 10, cy2))])
    /\ 0 <= cy1 < cy2 /\ cy2 <= rows img
    /\ region_size img (0, cy1, x2 + 10, cy2)
       = (cy2 - cy1) * (cols img + (x2 + 10)) * 3.
Proof.
  intros Hshould Hrect Hx Hx2 Hc Hy1 Hy Hy2 Hr.
  exists (Z.max 0 (y1 - 10)), (Z.min (rows img) (y2 + 10)).
  eexists. split; [reflexivity|].
  assert (Hpad : pad_corners img 10 (scaled annot)
                 = (0, Z.max 0 (y1 - 10), x2 + 10, Z.min (rows img) (y2 + 10))).
  { rewrite Hrect. unfold pad_corners.
    rewrite (Z.max_l 0 (x1 - 10)), (Z.min_r (cols img) (x2 + 10)) by lia.
    reflexivity. }
  assert (Hsize :
            region_size img (0, Z.max 0 (y1 - 10), x2 + 10,
                             Z.min (rows img) (y2 + 10))
            = (Z.min (rows img) (y2 + 10) - Z.max 0 (y1 - 10))
              * (cols img + (x2 + 10)) * 3).
  { unfold region_size.
    rewrite slice_length_inside by lia.
    rewrite slice_length_wraps by lia. reflexivity. }
  split.
  - rewrite extract_annotation_sized; [by rewrite Hpad|done|].
    rewrite Hpad, Hsize. apply Z.mul_pos_pos; [apply Z.mul_pos_pos|]; lia.
  - split; [lia|]. split; [lia|]. exact Hsize.
Qed.

Lemma annotation_left_of_page_wraps_witness :
  let red_stroke :=
    <["stroke" := PySeq [1; 0; 0]%float]> (∅ : gmap string py_color) in
  let annot := Annotation "Ink" red_stroke (-100, 300, -50, 360) in
  let img := PageBuffer 1200 900 in
  exists cy1 cy2 name,
    name = file_name (0 + 1) (annot_type annot)
             (length (extracted_items (Output [] [])) + 1)
    /\ extract_annotation img 0 "out" true true (Output [] []) annot
       = Output
           (extracted_items (Output [] [])
              ++ [ExtractionRecord (0 + 1) (annot_type annot) name
                    (0, cy1, -50 + 10, cy2) None])
           (written (Output [] [])
              ++ [(path_join "out" name, (0, cy1, -50 + 10, cy2))])
    /\ 0 <= cy1 < cy2 /\ cy2 <= rows img
    /\ region_size img (0, cy1, -50 + 10, cy2)
       = (cy2 - cy1) * (cols img + (-50 + 10)) * 3.
Proof.
  intros red_stroke annot img.
  apply (annotation_left_of_page_wraps img 0 "out" true true
           (Output [] []) annot (-100) 300 (-50) 360);
    try reflexivity; simpl; lia.
Defined.

(** ** Annotations that are never extracted *)

(** X18. Three sorts of annotation are never extracted, whatever the
    settings: one whose type is none of the six the program knows, one
    whose colour dictionary has neither a stroke nor a fill entry (black
    passes neither colour test), and one whose stroke entry holds [None]
    or fewer than three components, even when its fill colour would pass
    the test. *)
Theorem uncoloured_annotation_never_extracted (annot : annotation)
    (annot_type : string) (extract_highlights extract_handwriting : bool) :
((annot_type ∉ highlight_types) /\ (annot_type ∉ ink_types))
  \/ (colors annot !! "stroke" = None /\ colors annot !! "fill" = None)
  \/ (exists c, colors annot !! "stroke" = Some c /\ rgb_of c = None) ->
  should_extract_annotation annot annot_type
    extract_highlights extract_handwriting = false.
Proof.
  unfold should_extract_annotation, highlight_color, ink_color.
  intros [[Hh Hi]|[[Hs Hf]|(c & Hs & Hc)]].
  - by rewrite !bool_decide_eq_false_2.
  - rewrite Hs, Hf. simpl.
    change (rgb_of black) with (Some (0, 0, 0)%float).
    destruct (bool_decide _); [by destruct extract_highlights|].
    destruct (bool_decide _); [by destruct extract_handwriting|done].
  - rewrite Hs. simpl. rewrite Hc.
    destruct (bool_decide _); [by destruct extract_highlights|].
    destruct (bool_decide _); [by destruct extract_handwriting|done].
Qed.

Lemma uncoloured_annotation_never_extracted_witness :
  let yellow_fill :=
    <["stroke" := PyNone]>
      (<["fill" := PySeq [1; 1; 0]%float]> (∅ : gmap string py_color)) in
  should_extract_annotation
    (Annotation "Highlight" yellow_fill (30, 30, 90, 60)) "Highlight"
    true true = false.
Proof.
  intros yellow_fill.
  apply (uncoloured_annotation_never_extracted
           (Annotation "Highlight" yellow_fill (30, 30, 90, 60))
           "Highlight" true true).
  right. right. exists PyNone. split; reflexivity.
Defined.

(** ** What the summary of [main] counts *)






